(** * HyperBridge (gasless-bridge): the canister interface, the client store
    and the settlement engine.

    The development follows the repository:
    - [IDL]: the Candid types and values the interface factories build;
    - [ServiceDid]: the canister's generated interface factory
      (.dfx/local/canisters/gasless-bridge, service.did.js / service.did.d.ts);
    - [CanisterStore]: frontend/src/hooks/useCanisterStore.ts, its hand-written
      interface factory and the zustand store with its actions;
    - [Engine]: the reserve manager and the quote and settlement engine, whose
      Rust sources are not part of the tree and are modelled from the
      specification;
    - [BridgeStore]: frontend/src/stores/bridge.store.ts, the bridge store and
      its derived values;
    - [BridgeServices]: frontend/src/services/bridge.services.ts, the bridge
      service over the two stores;
    - [Auth]: frontend/src/hooks/useAuth.ts, the auth store. *)

From Stdlib Require Import List Ascii String NArith ZArith Bool Lia Sorted.
From stdpp Require Import base strings list gmap.
Import ListNotations.

Local Open Scope string_scope.
Local Open Scope N_scope.

(** ** Candid types and values *)

Set Warnings "-register-all".

Module IDL.

(** The type constructors of [@dfinity/candid] that the two interface
    factories use. A record or a variant is built from a JS object literal:
    a list of keys with their types, in the order written. *)
Inductive Ty : Type :=
| Null
| Bool
| Nat32
| Nat64
| Float64
| Text
| Principal
| Opt (t : Ty)
| Vec (t : Ty)
| Record (fields : list (string * Ty))
| Variant (tags : list (string * Ty)).

(** [IDL.Func(args, rets, annotations)]. *)
Inductive FuncTy : Type :=
| Func (args rets : list Ty) (annotations : list string).

(** [IDL.Service({...})]: the methods by name. *)
Definition Service (methods : list (string * FuncTy)) : list (string * FuncTy) :=
  methods.

Definition func_args (f : FuncTy) : list Ty := let 'Func a _ _ := f in a.
Definition func_rets (f : FuncTy) : list Ty := let 'Func _ r _ := f in r.

(** Reading a key of an object literal. *)
Fixpoint assoc {A : Type} (k : string) (l : list (string * A)) : option A :=
  match l with
  | [] => None
  | (k', x) :: rest => if String.eqb k' k then Some x else assoc k rest
  end.

Definition keys {A : Type} (l : list (string * A)) : list string := map fst l.

(** The decoded JS values: a bigint or number for the naturals, the bit
    pattern for a float, [[]] or [[x]] for an option, an object with one key
    for a variant. *)
Inductive Val : Type :=
| VNull
| VBool (b : bool)
| VNat (n : N)
| VFloat (bits : N)
| VText (s : string)
| VPrincipal (p : string)
| VOpt (o : option Val)
| VVec (l : list Val)
| VRecord (fields : list (string * Val))
| VVariant (tag : string) (payload : Val).

(** [has_type t v]: the value [v] is a value of the Candid type [t]. *)
Fixpoint has_type (t : Ty) (v : Val) {struct t} : bool :=
  match t, v with
  | Null, VNull => true
  | Bool, VBool _ => true
  | Nat32, VNat n => n <? 2 ^ 32
  | Nat64, VNat n => n <? 2 ^ 64
  | Float64, VFloat b => b <? 2 ^ 64
  | Text, VText _ => true
  | Principal, VPrincipal _ => true
  | Opt _, VOpt None => true
  | Opt t', VOpt (Some x) => has_type t' x
  | Vec t', VVec l => forallb (has_type t') l
  | Record fields, VRecord fs =>
      (length fs =? length fields)%nat
      && (fix go (fields : list (string * Ty)) : bool :=
            match fields with
            | [] => true
            | (k, ft) :: rest =>
                match assoc k fs with
                | Some fv => has_type ft fv
                | None => false
                end && go rest
            end) fields
  | Variant tags, VVariant tag x =>
      (fix go (tags : list (string * Ty)) : bool :=
         match tags with
         | [] => false
         | (k, pt) :: rest => if String.eqb k tag then has_type pt x else go rest
         end) tags
  | _, _ => false
  end.

(** Two Candid types are the same when they agree up to the order in which
    the keys of a record or variant were written. *)
Fixpoint ty_eqb (a b : Ty) {struct a} : bool :=
  match a, b with
  | Null, Null => true
  | Bool, Bool => true
  | Nat32, Nat32 => true
  | Nat64, Nat64 => true
  | Float64, Float64 => true
  | Text, Text => true
  | Principal, Principal => true
  | Opt x, Opt y => ty_eqb x y
  | Vec x, Vec y => ty_eqb x y
  | Record fa, Record fb =>
      (length fa =? length fb)%nat
      && (fix go (fa : list (string * Ty)) : bool :=
            match fa with
            | [] => true
            | (k, t) :: rest =>
                match assoc k fb with
                | Some t' => ty_eqb t t'
                | None => false
                end && go rest
            end) fa
  | Variant ta, Variant tb =>
      (length ta =? length tb)%nat
      && (fix go (ta : list (string * Ty)) : bool :=
            match ta with
            | [] => true
            | (k, t) :: rest =>
                match assoc k tb with
                | Some t' => ty_eqb t t'
                | None => false
                end && go rest
            end) ta
  | _, _ => false
  end.

Fixpoint tys_eqb (l1 l2 : list Ty) : bool :=
  match l1, l2 with
  | [], [] => true
  | a :: l1', b :: l2' => ty_eqb a b && tys_eqb l1' l2'
  | _, _ => false
  end.

(** Same argument and result types (the annotations are not compared). *)
Definition func_eqb (f g : FuncTy) : bool :=
  tys_eqb (func_args f) (func_args g) && tys_eqb (func_rets f) (func_rets g).

(** A method of one binding is matched by a service when the service has a
    method of that name with the same argument and result types. *)
Definition method_agrees (service : list (string * FuncTy))
    (m : string * FuncTy) : bool :=
  match assoc (fst m) service with
  | Some g => func_eqb (snd m) g
  | None => false
  end.

(** [{ Ok: T } | { Err: text }], the reply type of most methods. *)
Definition ok_err (T : Ty) : Ty := Variant [("Ok", T); ("Err", Text)].

(** A tag without payload, [{ Tag: null }]. *)
Definition tag_only (tag : string) : Val := VVariant tag VNull.

(** The methods of a binding that a service does not match. *)
Definition unmatched (service binding : list (string * FuncTy)) : list string :=
  keys (List.filter (fun m => negb (method_agrees service m)) binding).

End IDL.

(** ** The canister's interface factory

    [idlFactory] of the generated declarations of the canister
    (service.did.js); service.did.d.ts states the same types for TypeScript.
    Every definition keeps the name of its [const]. *)

Module ServiceDid.

Definition SettlementStatus : IDL.Ty :=
  IDL.Variant
    [("Failed", IDL.Null);
     ("Executing", IDL.Null);
     ("Completed", IDL.Null);
     ("Pending", IDL.Null)].

Definition Settlement : IDL.Ty :=
  IDL.Record
    [("id", IDL.Text);
     ("destination_address", IDL.Text);
     ("last_error", IDL.Opt IDL.Text);
     ("status", SettlementStatus);
     ("user_principal", IDL.Principal);
     ("transaction_hash", IDL.Opt IDL.Text);
     ("destination_chain", IDL.Text);
     ("retry_count", IDL.Nat32);
     ("created_at", IDL.Nat64);
     ("payment_proof", IDL.Text);
     ("quote_id", IDL.Text);
     ("gas_used", IDL.Opt IDL.Nat64);
     ("amount", IDL.Nat64)].

Definition BurnOperationStatus : IDL.Ty :=
  IDL.Variant
    [("Failed", IDL.Null);
     ("Executing", IDL.Null);
     ("Burning", IDL.Null);
     ("Completed", IDL.Null);
     ("Pending", IDL.Null)].

Definition ChainKeyTokenType : IDL.Ty :=
  IDL.Variant
    [("ckDAI", IDL.Null);
     ("ckETH", IDL.Null);
     ("ckUSDC", IDL.Null);
     ("ckUSDT", IDL.Null);
     ("ckWBTC", IDL.Null);
     ("Custom", IDL.Text)].

Definition ChainKeyBurnOperation : IDL.Ty :=
  IDL.Record
    [("id", IDL.Text);
     ("destination_address", IDL.Text);
     ("status", BurnOperationStatus);
     ("user_principal", IDL.Principal);
     ("created_at", IDL.Nat64);
     ("ethereum_tx_hash", IDL.Opt IDL.Text);
     ("completed_at", IDL.Opt IDL.Nat64);
     ("amount", IDL.Nat64);
     ("token_type", ChainKeyTokenType)].

Definition MintOperationStatus : IDL.Ty :=
  IDL.Variant
    [("Failed", IDL.Null);
     ("Completed", IDL.Null);
     ("Verifying", IDL.Null);
     ("Pending", IDL.Null)].

Definition ChainKeyMintOperation : IDL.Ty :=
  IDL.Record
    [("id", IDL.Text);
     ("status", MintOperationStatus);
     ("user_principal", IDL.Principal);
     ("created_at", IDL.Nat64);
     ("ethereum_tx_hash", IDL.Text);
     ("completed_at", IDL.Opt IDL.Nat64);
     ("amount", IDL.Nat64);
     ("token_type", ChainKeyTokenType)].

Definition TransactionStatus : IDL.Ty :=
  IDL.Variant
    [("Failed", IDL.Null);
     ("Refunded", IDL.Null);
     ("Processing", IDL.Null);
     ("Completed", IDL.Null);
     ("Pending", IDL.Null)].

Definition UserTransaction : IDL.Ty :=
  IDL.Record
    [("id", IDL.Text);
     ("destination_address", IDL.Text);
     ("status", TransactionStatus);
     ("user_principal", IDL.Principal);
     ("transaction_hash", IDL.Opt IDL.Text);
     ("destination_chain", IDL.Text);
     ("icp_payment_id", IDL.Text);
     ("created_at", IDL.Nat64);
     ("amount_eth", IDL.Nat64);
     ("amount_icp", IDL.Nat64);
     ("gas_sponsored", IDL.Nat64);
     ("completed_at", IDL.Opt IDL.Nat64)].

Definition AuditLogEntry : IDL.Ty :=
  IDL.Record
    [("id", IDL.Text);
     ("user_principal", IDL.Opt IDL.Principal);
     ("transaction_hash", IDL.Opt IDL.Text);
     ("timestamp", IDL.Nat64);
     ("details", IDL.Text);
     ("amount", IDL.Opt IDL.Nat64);
     ("event_type", IDL.Text);
     ("admin_principal", IDL.Opt IDL.Principal)].

Definition PriceData : IDL.Ty :=
  IDL.Record
    [("asset", IDL.Text);
     ("source", IDL.Text);
     ("timestamp", IDL.Nat64);
     ("confidence", IDL.Float64);
     ("price_usd", IDL.Float64)].

Definition BridgeStatistics : IDL.Ty :=
  IDL.Record
    [("total_settlements", IDL.Nat64);
     ("reserve_balance", IDL.Nat64);
     ("locked_balance", IDL.Nat64);
     ("daily_used", IDL.Nat64);
     ("health_status", IDL.Text);
     ("total_transactions", IDL.Nat64);
     ("daily_limit", IDL.Nat64)].

Definition BridgeConfig : IDL.Ty :=
  IDL.Record
    [("max_quote_amount", IDL.Nat64);
     ("min_quote_amount", IDL.Nat64);
     ("quote_validity_minutes", IDL.Nat64);
     ("max_gas_price", IDL.Nat64);
     ("safety_margin_percent", IDL.Nat32);
     ("supported_chains", IDL.Vec IDL.Text)].

Definition DetailedReserveStatus : IDL.Ty :=
  IDL.Record
    [("utilization_percent", IDL.Float64);
     ("threshold_warning", IDL.Nat64);
     ("balance", IDL.Nat64);
     ("daily_volume", IDL.Nat64);
     ("pending_withdrawals", IDL.Nat64);
     ("locked", IDL.Nat64);
     ("can_accept_quotes", IDL.Bool);
     ("available", IDL.Nat64);
     ("health_status", IDL.Text);
     ("last_topup", IDL.Nat64);
     ("threshold_critical", IDL.Nat64);
     ("daily_limit", IDL.Nat64)].

Definition PriceSource : IDL.Ty :=
  IDL.Record
    [("status", IDL.Text);
     ("name", IDL.Text);
     ("confidence", IDL.Float64);
     ("price_usd", IDL.Float64)].

Definition PriceFeedStatus : IDL.Ty :=
  IDL.Record
    [("cache_status", IDL.Text);
     ("last_updated", IDL.Nat64);
     ("icp_sources", IDL.Vec PriceSource);
     ("eth_sources", IDL.Vec PriceSource)].

Definition ReserveState : IDL.Ty :=
  IDL.Record
    [("available_balance", IDL.Nat64);
     ("total_deposited", IDL.Nat64);
     ("locked_balance", IDL.Nat64);
     ("last_updated", IDL.Nat64);
     ("daily_used", IDL.Nat64);
     ("last_reset", IDL.Nat64);
     ("health_status", IDL.Text);
     ("daily_limit", IDL.Nat64);
     ("total_withdrawn", IDL.Nat64)].

Definition QuoteStatus : IDL.Ty :=
  IDL.Variant
    [("Active", IDL.Null);
     ("Expired", IDL.Null);
     ("Settled", IDL.Null)].

Definition Quote : IDL.Ty :=
  IDL.Record
    [("id", IDL.Text);
     ("destination_address", IDL.Text);
     ("source_chain", IDL.Text);
     ("status", QuoteStatus);
     ("base_fee", IDL.Nat64);
     ("user_principal", IDL.Principal);
     ("destination_chain", IDL.Text);
     ("safety_margin", IDL.Nat64);
     ("amount_requested", IDL.Nat64);
     ("priority_fee", IDL.Nat64);
     ("gas_estimate", IDL.Nat64);
     ("total_cost", IDL.Nat64);
     ("created_at", IDL.Nat64);
     ("max_fee_per_gas", IDL.Nat64);
     ("amount_out", IDL.Nat64);
     ("amount_in", IDL.Nat64);
     ("expires_at", IDL.Nat64)].

Definition ReserveStatus : IDL.Ty :=
  IDL.Variant
    [("Healthy", IDL.Null);
     ("Critical", IDL.Null);
     ("Emergency", IDL.Null);
     ("Warning", IDL.Null)].

Definition SponsorshipStatus : IDL.Ty :=
  IDL.Record
    [("can_sponsor", IDL.Bool);
     ("reserve_health", IDL.Text);
     ("gas_coverage", IDL.Text);
     ("estimated_cost_eth", IDL.Nat64);
     ("estimated_cost_icp", IDL.Nat64)].

Definition idlFactory : list (string * IDL.FuncTy) :=
  IDL.Service
    [("add_admin",
      IDL.Func [IDL.Principal]
          [IDL.Variant [("Ok", IDL.Text); ("Err", IDL.Text)]] []);
     ("add_reserve_funds",
      IDL.Func [IDL.Nat64]
          [IDL.Variant [("Ok", IDL.Text); ("Err", IDL.Text)]] []);
     ("add_test_reserve_funds",
      IDL.Func [] [IDL.Text] []);
     ("admin_add_reserve_funds",
      IDL.Func [IDL.Nat64]
          [IDL.Variant [("Ok", IDL.Text); ("Err", IDL.Text)]] []);
     ("admin_emergency_pause",
      IDL.Func []
          [IDL.Variant [("Ok", IDL.Text); ("Err", IDL.Text)]] []);
     ("admin_emergency_unpause",
      IDL.Func []
          [IDL.Variant [("Ok", IDL.Text); ("Err", IDL.Text)]] []);
     ("admin_set_daily_limit",
      IDL.Func [IDL.Nat64]
          [IDL.Variant [("Ok", IDL.Text); ("Err", IDL.Text)]] []);
     ("admin_set_reserve_thresholds",
      IDL.Func [IDL.Nat64; IDL.Nat64]
          [IDL.Variant [("Ok", IDL.Text); ("Err", IDL.Text)]] []);
     ("bridge_assets",
      IDL.Func [IDL.Nat64; IDL.Text; IDL.Text]
          [IDL.Variant [("Ok", Settlement); ("Err", IDL.Text)]] []);
     ("calculate_icp_cost_for_eth",
      IDL.Func [IDL.Nat64]
          [IDL.Variant [("Ok", IDL.Nat64); ("Err", IDL.Text)]] []);
     ("can_accept_new_quotes",
      IDL.Func [] [IDL.Bool] []);
     ("check_quote_expiry",
      IDL.Func [IDL.Text]
          [IDL.Variant [("Ok", IDL.Text); ("Err", IDL.Text)]] []);
     ("check_reserve_health",
      IDL.Func [] [IDL.Text] []);
     ("clear_rpc_cache",
      IDL.Func [] [IDL.Text] []);
     ("complete_cketh_burn_operation",
      IDL.Func [IDL.Text]
          [IDL.Variant [("Ok", IDL.Text); ("Err", IDL.Text)]] []);
     ("complete_cketh_mint_operation",
      IDL.Func [IDL.Text]
          [IDL.Variant [("Ok", IDL.Text); ("Err", IDL.Text)]] []);
     ("create_cketh_burn_operation",
      IDL.Func [IDL.Nat64; IDL.Text]
          [IDL.Variant [("Ok", ChainKeyBurnOperation); ("Err", IDL.Text)]] []);
     ("create_cketh_mint_operation",
      IDL.Func [IDL.Nat64; IDL.Text]
          [IDL.Variant [("Ok", ChainKeyMintOperation); ("Err", IDL.Text)]] []);
     ("create_icp_payment",
      IDL.Func [IDL.Nat64; IDL.Text; IDL.Text]
          [IDL.Variant [("Ok", UserTransaction); ("Err", IDL.Text)]] []);
     ("estimate_quote_cost",
      IDL.Func [IDL.Nat64]
          [IDL.Variant [("Ok", IDL.Text); ("Err", IDL.Text)]] []);
     ("estimate_reserve_runway",
      IDL.Func [] [IDL.Text] []);
     ("get_admin_status",
      IDL.Func [] [IDL.Vec IDL.Principal] []);
     ("get_audit_logs",
      IDL.Func [IDL.Nat32] [IDL.Vec AuditLogEntry] []);
     ("get_best_eth_price",
      IDL.Func []
          [IDL.Variant [("Ok", PriceData); ("Err", IDL.Text)]] []);
     ("get_best_icp_price",
      IDL.Func []
          [IDL.Variant [("Ok", PriceData); ("Err", IDL.Text)]] []);
     ("get_bridge_ethereum_address",
      IDL.Func []
          [IDL.Variant [("Ok", IDL.Text); ("Err", IDL.Text)]] []);
     ("get_bridge_statistics",
      IDL.Func [] [BridgeStatistics] []);
     ("get_bridge_status",
      IDL.Func []
          [IDL.Variant [("Ok", IDL.Text); ("Err", IDL.Text)]] []);
     ("get_chain_key_service_status",
      IDL.Func [] [IDL.Text] []);
     ("get_cketh_burn_operation",
      IDL.Func [IDL.Text]
          [IDL.Variant [("Ok", ChainKeyBurnOperation); ("Err", IDL.Text)]] []);
     ("get_cketh_mint_operation",
      IDL.Func [IDL.Text]
          [IDL.Variant [("Ok", ChainKeyMintOperation); ("Err", IDL.Text)]] []);
     ("get_config",
      IDL.Func [] [BridgeConfig] []);
     ("get_conversion_rate",
      IDL.Func []
          [IDL.Variant [("Ok", IDL.Float64); ("Err", IDL.Text)]] []);
     ("get_detailed_reserve_status",
      IDL.Func [] [DetailedReserveStatus] []);
     ("get_eth_price_usd",
      IDL.Func []
          [IDL.Variant [("Ok", IDL.Float64); ("Err", IDL.Text)]] []);
     ("get_icp_price_usd",
      IDL.Func []
          [IDL.Variant [("Ok", IDL.Float64); ("Err", IDL.Text)]] []);
     ("get_price_feed_status",
      IDL.Func []
          [IDL.Variant [("Ok", PriceFeedStatus); ("Err", IDL.Text)]] []);
     ("get_professional_reserve_status",
      IDL.Func [] [ReserveState] []);
     ("get_quote",
      IDL.Func [IDL.Text] [IDL.Opt Quote] []);
     ("get_reserve_status",
      IDL.Func [] [ReserveStatus] []);
     ("get_reserve_status_formatted",
      IDL.Func [] [IDL.Text] []);
     ("get_reserve_utilization",
      IDL.Func [] [IDL.Float64] []);
     ("get_rpc_cache_stats",
      IDL.Func [] [IDL.Text] []);
     ("get_settlement",
      IDL.Func [IDL.Text] [IDL.Opt Settlement] []);
     ("get_settlement_by_quote",
      IDL.Func [IDL.Text] [IDL.Opt Settlement] []);
     ("get_settlement_statistics",
      IDL.Func [] [IDL.Text] []);
     ("get_sponsorship_status",
      IDL.Func [IDL.Nat64; IDL.Text]
          [IDL.Variant [("Ok", SponsorshipStatus); ("Err", IDL.Text)]] []);
     ("get_supported_chain_key_tokens",
      IDL.Func [] [IDL.Text] []);
     ("get_user_cketh_operations",
      IDL.Func []
          [IDL.Record
                [("mint_operations", IDL.Vec ChainKeyMintOperation);
                 ("burn_operations", IDL.Vec ChainKeyBurnOperation)]] []);
     ("get_user_icp_balance",
      IDL.Func []
          [IDL.Variant [("Ok", IDL.Nat64); ("Err", IDL.Text)]] []);
     ("get_user_quotes",
      IDL.Func [] [IDL.Vec Quote] []);
     ("get_user_settlements",
      IDL.Func [] [IDL.Vec Settlement] []);
     ("get_user_transaction",
      IDL.Func [IDL.Text] [IDL.Opt UserTransaction] []);
     ("get_user_transactions",
      IDL.Func [] [IDL.Vec UserTransaction] []);
     ("health_check",
      IDL.Func [] [IDL.Text] []);
     ("invalidate_gas_cache",
      IDL.Func [] [IDL.Text] []);
     ("request_quote",
      IDL.Func [IDL.Nat64; IDL.Text; IDL.Text]
          [IDL.Variant [("Ok", Quote); ("Err", IDL.Text)]] []);
     ("run_chain_key_token_tests",
      IDL.Func [] [IDL.Text] []);
     ("run_comprehensive_test_suite",
      IDL.Func [] [IDL.Text] []);
     ("run_edge_case_tests",
      IDL.Func [] [IDL.Text] []);
     ("run_integration_tests",
      IDL.Func [] [IDL.Text] []);
     ("run_performance_tests",
      IDL.Func [] [IDL.Text] []);
     ("run_security_tests",
      IDL.Func [] [IDL.Text] []);
     ("run_unit_tests",
      IDL.Func [] [IDL.Text] []);
     ("settle_quote",
      IDL.Func [IDL.Text; IDL.Text]
          [IDL.Variant [("Ok", Settlement); ("Err", IDL.Text)]] []);
     ("test_base_rpc",
      IDL.Func [] [IDL.Text] []);
     ("test_complete_bridge_flow",
      IDL.Func []
          [IDL.Variant [("Ok", IDL.Text); ("Err", IDL.Text)]] []);
     ("test_complete_gasless_settlement",
      IDL.Func []
          [IDL.Variant [("Ok", IDL.Text); ("Err", IDL.Text)]] []);
     ("test_enhanced_rpc_client",
      IDL.Func []
          [IDL.Variant [("Ok", IDL.Text); ("Err", IDL.Text)]] []);
     ("test_gasless_bridge_demo",
      IDL.Func []
          [IDL.Variant [("Ok", IDL.Text); ("Err", IDL.Text)]] []);
     ("test_rpc_health_monitoring",
      IDL.Func []
          [IDL.Variant [("Ok", IDL.Text); ("Err", IDL.Text)]] []);
     ("test_settlement_flow",
      IDL.Func []
          [IDL.Variant [("Ok", IDL.Text); ("Err", IDL.Text)]] []);
     ("test_threshold_ecdsa_integration",
      IDL.Func []
          [IDL.Variant [("Ok", IDL.Text); ("Err", IDL.Text)]] []);
     ("test_transaction_building",
      IDL.Func []
          [IDL.Variant [("Ok", IDL.Text); ("Err", IDL.Text)]] []);
     ("update_config",
      IDL.Func [BridgeConfig]
          [IDL.Variant [("Ok", IDL.Text); ("Err", IDL.Text)]] [])].

End ServiceDid.

(** ** The client store (frontend/src/hooks/useCanisterStore.ts) *)

Module CanisterStore.

(** *** The hand-written interface factory of the store *)

Definition QuoteStatus : IDL.Ty :=
  IDL.Variant
    [("Active", IDL.Null);
     ("Settled", IDL.Null);
     ("Expired", IDL.Null);
     ("Failed", IDL.Null)].

Definition Quote : IDL.Ty :=
  IDL.Record
    [("id", IDL.Text);
     ("user_principal", IDL.Principal);
     ("amount_in", IDL.Nat64);
     ("amount_out", IDL.Nat64);
     ("amount_requested", IDL.Nat64);
     ("total_cost", IDL.Nat64);
     ("gas_estimate", IDL.Nat64);
     ("destination_address", IDL.Text);
     ("source_chain", IDL.Text);
     ("destination_chain", IDL.Text);
     ("created_at", IDL.Nat64);
     ("expires_at", IDL.Nat64);
     ("base_fee", IDL.Nat64);
     ("priority_fee", IDL.Nat64);
     ("max_fee_per_gas", IDL.Nat64);
     ("safety_margin", IDL.Nat64);
     ("status", QuoteStatus)].

Definition SettlementStatus : IDL.Ty :=
  IDL.Variant
    [("Pending", IDL.Null);
     ("Executing", IDL.Null);
     ("Completed", IDL.Null);
     ("Failed", IDL.Null)].

Definition Settlement : IDL.Ty :=
  IDL.Record
    [("id", IDL.Text);
     ("quote_id", IDL.Text);
     ("user_principal", IDL.Principal);
     ("amount", IDL.Nat64);
     ("destination_address", IDL.Text);
     ("destination_chain", IDL.Text);
     ("payment_proof", IDL.Text);
     ("created_at", IDL.Nat64);
     ("status", SettlementStatus);
     ("gas_used", IDL.Opt IDL.Nat64);
     ("transaction_hash", IDL.Opt IDL.Text);
     ("retry_count", IDL.Nat32);
     ("last_error", IDL.Opt IDL.Text)].

Definition ReserveStatus : IDL.Ty :=
  IDL.Record
    [("balance", IDL.Nat64);
     ("locked", IDL.Nat64);
     ("available", IDL.Nat64);
     ("threshold_warning", IDL.Nat64);
     ("threshold_critical", IDL.Nat64);
     ("daily_volume", IDL.Nat64);
     ("daily_limit", IDL.Nat64);
     ("pending_withdrawals", IDL.Nat64);
     ("utilization_percent", IDL.Float64);
     ("health_status", IDL.Text);
     ("can_accept_quotes", IDL.Bool);
     ("last_topup", IDL.Nat64)].

Definition Result : IDL.Ty :=
  IDL.Variant [("Ok", IDL.Text); ("Err", IDL.Text)].

Definition Result_1 : IDL.Ty :=
  IDL.Variant [("Ok", Quote); ("Err", IDL.Text)].

Definition Result_2 : IDL.Ty :=
  IDL.Variant [("Ok", Settlement); ("Err", IDL.Text)].

Definition SponsorshipStatus : IDL.Ty :=
  IDL.Record
    [("can_sponsor", IDL.Bool);
     ("estimated_cost_icp", IDL.Nat64);
     ("estimated_cost_eth", IDL.Nat64);
     ("gas_coverage", IDL.Text);
     ("reserve_health", IDL.Text)].

Definition TransactionStatus : IDL.Ty :=
  IDL.Variant
    [("Pending", IDL.Null);
     ("Processing", IDL.Null);
     ("Completed", IDL.Null);
     ("Failed", IDL.Null);
     ("Refunded", IDL.Null)].

Definition UserTransaction : IDL.Ty :=
  IDL.Record
    [("id", IDL.Text);
     ("user_principal", IDL.Principal);
     ("amount_icp", IDL.Nat64);
     ("amount_eth", IDL.Nat64);
     ("destination_address", IDL.Text);
     ("destination_chain", IDL.Text);
     ("status", TransactionStatus);
     ("created_at", IDL.Nat64);
     ("completed_at", IDL.Opt IDL.Nat64);
     ("transaction_hash", IDL.Opt IDL.Text);
     ("gas_sponsored", IDL.Nat64);
     ("icp_payment_id", IDL.Text)].

Definition Result_4 : IDL.Ty :=
  IDL.Variant [("Ok", UserTransaction); ("Err", IDL.Text)].

Definition Result_5 : IDL.Ty :=
  IDL.Variant [("Ok", SponsorshipStatus); ("Err", IDL.Text)].

Definition idlFactory : list (string * IDL.FuncTy) :=
  IDL.Service
    [("request_quote",
      IDL.Func [IDL.Nat64; IDL.Text; IDL.Text] [Result_1] []);
     ("bridge_assets",
      IDL.Func [IDL.Nat64; IDL.Text; IDL.Text] [Result_2] []);
     ("settle_quote",
      IDL.Func [IDL.Text; IDL.Text] [Result_2] []);
     ("get_quote_by_id",
      IDL.Func [IDL.Text] [Result_1] ["query"]);
     ("get_settlement_by_id",
      IDL.Func [IDL.Text] [Result_2] ["query"]);
     ("get_detailed_reserve_status",
      IDL.Func [] [ReserveStatus] ["query"]);
     ("get_rpc_cache_stats",
      IDL.Func [] [Result] ["query"]);
     ("clear_rpc_cache",
      IDL.Func [] [Result] []);
     ("invalidate_gas_cache",
      IDL.Func [] [Result] []);
     ("run_comprehensive_test_suite",
      IDL.Func [] [Result] []);
     ("create_icp_payment",
      IDL.Func [IDL.Nat64; IDL.Text; IDL.Text] [Result_4] []);
     ("get_sponsorship_status",
      IDL.Func [IDL.Nat64; IDL.Text] [Result_5] []);
     ("get_user_transactions",
      IDL.Func [] [IDL.Vec UserTransaction] ["query"]);
     ("get_user_transaction",
      IDL.Func [IDL.Text] [IDL.Opt UserTransaction] ["query"])].

(** *** What an awaited call can do *)

(** A thrown JS value: an [Error] object with its name and message, or any
    other value, given by its string form. *)
Inductive Thrown : Type :=
| ThrownError (name message : string)
| ThrownOther (repr : string).

(** The string a template literal makes of a thrown value
    ([Error.prototype.toString] for an error object). *)
Definition to_string (e : Thrown) : string :=
  match e with
  | ThrownError name message =>
      if String.eqb name EmptyString then message
      else if String.eqb message EmptyString then name
      else name ++ ": " ++ message
  | ThrownOther repr => repr
  end.

(** [s.includes(sub)]. *)
Fixpoint includes (s sub : string) : bool :=
  String.prefix sub s
  || match s with
     | EmptyString => false
     | String _ rest => includes rest sub
     end.

(** A promise resolves with a value or rejects with a thrown one. *)
Inductive Outcome (A : Type) : Type :=
| Resolved (result : A)
| Rejected (e : Thrown).
Arguments Resolved {A} result.
Arguments Rejected {A} e.

(** The reply type [{ Ok: T } | { Err: string }] of the actor's methods. *)
Inductive OkErr (T : Type) : Type :=
| Ok (v : T)
| Err (msg : string).
Arguments Ok {T} v.
Arguments Err {T} msg.

(** *** The store *)

Inductive Identity : Type :=
| AnonymousIdentity
| AuthenticatedIdentity (principal : string).

Inductive HttpAgent : Type :=
| NewHttpAgent (host : string) (identity : Identity).

(** [Actor.createActor(idlFactory, { agent, canisterId })]. *)
Inductive Actor : Type :=
| createActor (agent : HttpAgent) (canisterId : string).

Definition CANISTER_ID : string := "uxrrr-q7777-77774-qaaaq-cai".

Definition HOST (dfx_network : string) : string :=
  if String.eqb dfx_network "local" then "http://localhost:4943"
  else "https://ic0.app".

(** The state of the store. Quotes, settlements and the other replies are
    kept as the decoded values the actor returned; [retryCount] is a JS
    number that only ever counts up by one. *)
Record Store : Type := mkStore {
  agent : option HttpAgent;
  actor : option Actor;
  isConnected : bool;
  isLoading : bool;
  error : option string;
  retryCount : N;
  quotes : list IDL.Val;
  settlements : list IDL.Val;
  reserveStatus : option IDL.Val;
  userTransactions : list IDL.Val;
  sponsorshipStatus : option IDL.Val;
  cacheStats : option string
}.

Definition initial : Store :=
  {| agent := None; actor := None; isConnected := false; isLoading := false;
     error := None; retryCount := 0; quotes := []; settlements := [];
     reserveStatus := None; userTransactions := []; sponsorshipStatus := None;
     cacheStats := None |}.

(** [set({ field: value })], one field at a time. *)
Definition set_agent (x : option HttpAgent) (s : Store) : Store :=
  mkStore x (actor s) (isConnected s) (isLoading s) (error s) (retryCount s)
    (quotes s) (settlements s) (reserveStatus s) (userTransactions s)
    (sponsorshipStatus s) (cacheStats s).
Definition set_actor (x : option Actor) (s : Store) : Store :=
  mkStore (agent s) x (isConnected s) (isLoading s) (error s) (retryCount s)
    (quotes s) (settlements s) (reserveStatus s) (userTransactions s)
    (sponsorshipStatus s) (cacheStats s).
Definition set_isConnected (x : bool) (s : Store) : Store :=
  mkStore (agent s) (actor s) x (isLoading s) (error s) (retryCount s)
    (quotes s) (settlements s) (reserveStatus s) (userTransactions s)
    (sponsorshipStatus s) (cacheStats s).
Definition set_isLoading (x : bool) (s : Store) : Store :=
  mkStore (agent s) (actor s) (isConnected s) x (error s) (retryCount s)
    (quotes s) (settlements s) (reserveStatus s) (userTransactions s)
    (sponsorshipStatus s) (cacheStats s).
Definition set_error (x : option string) (s : Store) : Store :=
  mkStore (agent s) (actor s) (isConnected s) (isLoading s) x (retryCount s)
    (quotes s) (settlements s) (reserveStatus s) (userTransactions s)
    (sponsorshipStatus s) (cacheStats s).
Definition set_retryCount (x : N) (s : Store) : Store :=
  mkStore (agent s) (actor s) (isConnected s) (isLoading s) (error s) x
    (quotes s) (settlements s) (reserveStatus s) (userTransactions s)
    (sponsorshipStatus s) (cacheStats s).
Definition set_quotes (x : list IDL.Val) (s : Store) : Store :=
  mkStore (agent s) (actor s) (isConnected s) (isLoading s) (error s)
    (retryCount s) x (settlements s) (reserveStatus s) (userTransactions s)
    (sponsorshipStatus s) (cacheStats s).
Definition set_settlements (x : list IDL.Val) (s : Store) : Store :=
  mkStore (agent s) (actor s) (isConnected s) (isLoading s) (error s)
    (retryCount s) (quotes s) x (reserveStatus s) (userTransactions s)
    (sponsorshipStatus s) (cacheStats s).
Definition set_reserveStatus (x : option IDL.Val) (s : Store) : Store :=
  mkStore (agent s) (actor s) (isConnected s) (isLoading s) (error s)
    (retryCount s) (quotes s) (settlements s) x (userTransactions s)
    (sponsorshipStatus s) (cacheStats s).
Definition set_userTransactions (x : list IDL.Val) (s : Store) : Store :=
  mkStore (agent s) (actor s) (isConnected s) (isLoading s) (error s)
    (retryCount s) (quotes s) (settlements s) (reserveStatus s) x
    (sponsorshipStatus s) (cacheStats s).
Definition set_sponsorshipStatus (x : option IDL.Val) (s : Store) : Store :=
  mkStore (agent s) (actor s) (isConnected s) (isLoading s) (error s)
    (retryCount s) (quotes s) (settlements s) (reserveStatus s)
    (userTransactions s) x (cacheStats s).
Definition set_cacheStats (x : option string) (s : Store) : Store :=
  mkStore (agent s) (actor s) (isConnected s) (isLoading s) (error s)
    (retryCount s) (quotes s) (settlements s) (reserveStatus s)
    (userTransactions s) (sponsorshipStatus s) x.

(** The lines an action writes to the console, with their arguments. *)
Inductive Console : Type :=
| LogInitializing (canisterId host : string)
| LogRetrying (attempt : N)
| ErrorFailedToInitialize (e : Thrown)
| ErrorFailedTo (what : string) (e : Thrown).

(** [interface GaslessBridgeCanister]: what each method of the actor does when
    it is awaited. A bigint argument is an integer. *)
Record GaslessBridgeCanister : Type := {
  request_quote : Z -> string -> string -> Outcome (OkErr IDL.Val);
  bridge_assets : Z -> string -> string -> Outcome (OkErr IDL.Val);
  settle_quote : string -> string -> Outcome (OkErr IDL.Val);
  get_quote_by_id : string -> Outcome (OkErr IDL.Val);
  get_settlement_by_id : string -> Outcome (OkErr IDL.Val);
  get_detailed_reserve_status : Outcome IDL.Val;
  get_rpc_cache_stats : Outcome (OkErr string);
  clear_rpc_cache : Outcome (OkErr string);
  invalidate_gas_cache : Outcome (OkErr string);
  run_comprehensive_test_suite : Outcome (OkErr string);
  create_icp_payment : Z -> string -> string -> Outcome (OkErr IDL.Val);
  get_sponsorship_status : Z -> string -> Outcome (OkErr IDL.Val);
  get_user_transactions : Outcome (list IDL.Val);
  get_user_transaction : string -> Outcome (option IDL.Val)
}.

(** What [initializeCanister] meets besides the canister. *)
Record InitEnv : Type := {
  dfx_network : string;
  authIdentity : option Identity;
  fetchRootKey : Outcome unit;
  canister : GaslessBridgeCanister
}.

(** An action ends with the value it returns, the store it leaves and the
    lines it wrote. *)
Record Reply (A : Type) : Type := mkReply {
  returned : A;
  store : Store;
  console : list Console
}.
Arguments mkReply {A} returned store console.
Arguments returned {A} r.
Arguments store {A} r.
Arguments console {A} r.

Definition getCacheStats (c : GaslessBridgeCanister) (s : Store) : Reply unit :=
  match actor s with
  | None => mkReply tt s []
  | Some _ =>
      match get_rpc_cache_stats c with
      | Resolved (Ok stats) => mkReply tt (set_cacheStats (Some stats) s) []
      | Resolved (Err _) => mkReply tt s []
      | Rejected e => mkReply tt s [ErrorFailedTo "get cache stats" e]
      end
  end.

Definition connection_error_message (e : Thrown) : string :=
  match e with
  | ThrownError _ message =>
      if includes message "not found" then
        "HyperBridge canister not found. Please check if it's deployed correctly."
      else if includes message "DestinationInvalid" then
        "Invalid canister destination. Please check the canister ID."
      else if includes message "network" then
        "Network connection failed. Please check your internet connection."
      else "Connection failed: " ++ message
  | ThrownOther _ => "Failed to connect to HyperBridge"
  end.

Definition initializeCanister (env : InitEnv) (s : Store) : Reply unit :=
  let s1 := set_error None (set_isLoading true s) in
  let host := HOST (dfx_network env) in
  let identity :=
    match authIdentity env with
    | Some i => i
    | None => AnonymousIdentity
    end in
  let agent := NewHttpAgent host identity in
  let rootKey :=
    if String.eqb (dfx_network env) "local" || includes host "localhost"
    then fetchRootKey env
    else Resolved tt in
  let actor := createActor agent CANISTER_ID in
  let connected :=
    match rootKey with
    | Rejected e => Rejected e
    | Resolved _ => get_detailed_reserve_status (canister env)
    end in
  match connected with
  | Resolved reserveStatus =>
      let s2 :=
        set_reserveStatus (Some reserveStatus)
          (set_error None
             (set_isLoading false
                (set_isConnected true
                   (set_actor (Some actor) (set_agent (Some agent) s1))))) in
      let r := getCacheStats (canister env) s2 in
      mkReply tt (store r) (LogInitializing CANISTER_ID host :: console r)
  | Rejected e =>
      mkReply tt
        (set_retryCount (retryCount s1 + 1)
           (set_isConnected false
              (set_error (Some (connection_error_message e))
                 (set_isLoading false s1))))
        [LogInitializing CANISTER_ID host; ErrorFailedToInitialize e]
  end.

Definition retryConnection (env : InitEnv) (s : Store) : Reply unit :=
  if retryCount s <? 3 then
    let r := initializeCanister env s in
    mkReply tt (store r) (LogRetrying (retryCount s + 1) :: console r)
  else
    mkReply tt
      (set_isLoading false
         (set_error
            (Some "Maximum retry attempts reached. Please check your connection and try again.")
            s))
      [].

Definition requestQuote (c : GaslessBridgeCanister) (amount : Z)
    (destinationAddress destinationChain : string) (s : Store)
    : Reply (option IDL.Val) :=
  match actor s with
  | None => mkReply None (set_error (Some "Not connected to canister") s) []
  | Some _ =>
      let s1 := set_error None (set_isLoading true s) in
      match request_quote c amount destinationAddress destinationChain with
      | Resolved (Ok quote) =>
          mkReply (Some quote)
            (set_isLoading false (set_quotes (quotes s1 ++ [quote]) s1)) []
      | Resolved (Err msg) =>
          mkReply None (set_isLoading false (set_error (Some msg) s1)) []
      | Rejected e =>
          mkReply None
            (set_isLoading false
               (set_error (Some ("Failed to request quote: " ++ to_string e)) s1))
            []
      end
  end.

Definition bridgeAssets (c : GaslessBridgeCanister) (amount : Z)
    (destinationAddress destinationChain : string) (s : Store)
    : Reply (option IDL.Val) :=
  match actor s with
  | None => mkReply None (set_error (Some "Not connected to canister") s) []
  | Some _ =>
      let s1 := set_error None (set_isLoading true s) in
      match bridge_assets c amount destinationAddress destinationChain with
      | Resolved (Ok settlement) =>
          mkReply (Some settlement)
            (set_isLoading false
               (set_settlements (settlements s1 ++ [settlement]) s1)) []
      | Resolved (Err msg) =>
          mkReply None (set_isLoading false (set_error (Some msg) s1)) []
      | Rejected e =>
          mkReply None
            (set_isLoading false
               (set_error (Some ("Failed to bridge assets: " ++ to_string e)) s1))
            []
      end
  end.

Definition settleQuote (c : GaslessBridgeCanister)
    (quoteId paymentProof : string) (s : Store) : Reply (option IDL.Val) :=
  match actor s with
  | None => mkReply None (set_error (Some "Not connected to canister") s) []
  | Some _ =>
      let s1 := set_error None (set_isLoading true s) in
      match settle_quote c quoteId paymentProof with
      | Resolved (Ok settlement) =>
          mkReply (Some settlement)
            (set_isLoading false
               (set_settlements (settlements s1 ++ [settlement]) s1)) []
      | Resolved (Err msg) =>
          mkReply None (set_isLoading false (set_error (Some msg) s1)) []
      | Rejected e =>
          mkReply None
            (set_isLoading false
               (set_error (Some ("Failed to settle quote: " ++ to_string e)) s1))
            []
      end
  end.

Definition getQuote (c : GaslessBridgeCanister) (quoteId : string)
    (s : Store) : Reply (option IDL.Val) :=
  match actor s with
  | None => mkReply None s []
  | Some _ =>
      match get_quote_by_id c quoteId with
      | Resolved (Ok quote) => mkReply (Some quote) s []
      | Resolved (Err _) => mkReply None s []
      | Rejected e => mkReply None s [ErrorFailedTo "get quote" e]
      end
  end.

Definition getSettlement (c : GaslessBridgeCanister) (settlementId : string)
    (s : Store) : Reply (option IDL.Val) :=
  match actor s with
  | None => mkReply None s []
  | Some _ =>
      match get_settlement_by_id c settlementId with
      | Resolved (Ok settlement) => mkReply (Some settlement) s []
      | Resolved (Err _) => mkReply None s []
      | Rejected e => mkReply None s [ErrorFailedTo "get settlement" e]
      end
  end.

Definition refreshReserveStatus (c : GaslessBridgeCanister) (s : Store)
    : Reply unit :=
  match actor s with
  | None => mkReply tt s []
  | Some _ =>
      match get_detailed_reserve_status c with
      | Resolved reserveStatus =>
          mkReply tt (set_reserveStatus (Some reserveStatus) s) []
      | Rejected e => mkReply tt s [ErrorFailedTo "get reserve status" e]
      end
  end.

Definition clearCache (c : GaslessBridgeCanister) (s : Store) : Reply unit :=
  match actor s with
  | None => mkReply tt s []
  | Some _ =>
      match clear_rpc_cache c with
      | Resolved _ => getCacheStats c s
      | Rejected e =>
          mkReply tt
            (set_error (Some ("Failed to clear cache: " ++ to_string e)) s)
            [ErrorFailedTo "clear cache" e]
      end
  end.

Definition invalidateGasCache (c : GaslessBridgeCanister) (s : Store)
    : Reply unit :=
  match actor s with
  | None => mkReply tt s []
  | Some _ =>
      match invalidate_gas_cache c with
      | Resolved _ => mkReply tt s []
      | Rejected e =>
          mkReply tt
            (set_error (Some ("Failed to invalidate gas cache: " ++ to_string e)) s)
            [ErrorFailedTo "invalidate gas cache" e]
      end
  end.

Definition runTests (c : GaslessBridgeCanister) (s : Store)
    : Reply (option string) :=
  match actor s with
  | None => mkReply None s []
  | Some _ =>
      let s1 := set_isLoading true s in
      match run_comprehensive_test_suite c with
      | Resolved (Ok text) => mkReply (Some text) (set_isLoading false s1) []
      | Resolved (Err text) => mkReply (Some text) (set_isLoading false s1) []
      | Rejected e =>
          mkReply None (set_isLoading false s1) [ErrorFailedTo "run tests" e]
      end
  end.

Definition setError (e : option string) (s : Store) : Reply unit :=
  mkReply tt (set_error e s) [].

Definition clearError (s : Store) : Reply unit :=
  mkReply tt (set_error None s) [].

Definition createIcpPayment (c : GaslessBridgeCanister) (amount : Z)
    (destinationAddress destinationChain : string) (s : Store)
    : Reply (option IDL.Val) :=
  match actor s with
  | None => mkReply None (set_error (Some "Not connected to canister") s) []
  | Some _ =>
      let s1 := set_error None (set_isLoading true s) in
      match create_icp_payment c amount destinationAddress destinationChain with
      | Resolved (Ok transaction) =>
          mkReply (Some transaction)
            (set_isLoading false
               (set_userTransactions (userTransactions s1 ++ [transaction]) s1))
            []
      | Resolved (Err msg) =>
          mkReply None (set_isLoading false (set_error (Some msg) s1)) []
      | Rejected e =>
          mkReply None
            (set_isLoading false
               (set_error
                  (Some ("Failed to create automatic ICP payment: " ++ to_string e))
                  s1))
            []
      end
  end.

Definition getSponsorshipStatus (c : GaslessBridgeCanister) (amount : Z)
    (destinationChain : string) (s : Store) : Reply (option IDL.Val) :=
  match actor s with
  | None => mkReply None (set_error (Some "Not connected to canister") s) []
  | Some _ =>
      let s1 := set_error None (set_isLoading true s) in
      match get_sponsorship_status c amount destinationChain with
      | Resolved (Ok status) =>
          mkReply (Some status)
            (set_isLoading false (set_sponsorshipStatus (Some status) s1)) []
      | Resolved (Err msg) =>
          mkReply None (set_isLoading false (set_error (Some msg) s1)) []
      | Rejected e =>
          mkReply None
            (set_isLoading false
               (set_error
                  (Some ("Failed to get sponsorship status: " ++ to_string e)) s1))
            []
      end
  end.

Definition getUserTransactions (c : GaslessBridgeCanister) (s : Store)
    : Reply (list IDL.Val) :=
  match actor s with
  | None => mkReply [] s []
  | Some _ =>
      match get_user_transactions c with
      | Resolved transactions =>
          mkReply transactions (set_userTransactions transactions s) []
      | Rejected e => mkReply [] s [ErrorFailedTo "get user transactions" e]
      end
  end.

Definition getUserTransaction (c : GaslessBridgeCanister)
    (transactionId : string) (s : Store) : Reply (option IDL.Val) :=
  match actor s with
  | None => mkReply None s []
  | Some _ =>
      match get_user_transaction c transactionId with
      | Resolved transaction => mkReply transaction s []
      | Rejected e => mkReply None s [ErrorFailedTo "get user transaction" e]
      end
  end.

(** *** Runs of the store *)

(** One call of an action of the store, with what the environment answers. *)
Inductive Action : Type :=
| InitializeCanister (env : InitEnv)
| RetryConnection (env : InitEnv)
| RequestQuote (c : GaslessBridgeCanister) (amount : Z) (address chain : string)
| BridgeAssets (c : GaslessBridgeCanister) (amount : Z) (address chain : string)
| SettleQuote (c : GaslessBridgeCanister) (quoteId paymentProof : string)
| GetQuote (c : GaslessBridgeCanister) (quoteId : string)
| GetSettlement (c : GaslessBridgeCanister) (settlementId : string)
| RefreshReserveStatus (c : GaslessBridgeCanister)
| GetCacheStats (c : GaslessBridgeCanister)
| ClearCache (c : GaslessBridgeCanister)
| InvalidateGasCache (c : GaslessBridgeCanister)
| RunTests (c : GaslessBridgeCanister)
| SetError (e : option string)
| ClearError
| CreateIcpPayment (c : GaslessBridgeCanister) (amount : Z) (address chain : string)
| GetSponsorshipStatus (c : GaslessBridgeCanister) (amount : Z) (chain : string)
| GetUserTransactions (c : GaslessBridgeCanister)
| GetUserTransaction (c : GaslessBridgeCanister) (transactionId : string).

(** The store and the console lines an action leaves. *)
Definition perform (a : Action) (s : Store) : Store * list Console :=
  match a with
  | InitializeCanister env =>
      let r := initializeCanister env s in (store r, console r)
  | RetryConnection env =>
      let r := retryConnection env s in (store r, console r)
  | RequestQuote c amount address chain =>
      let r := requestQuote c amount address chain s in (store r, console r)
  | BridgeAssets c amount address chain =>
      let r := bridgeAssets c amount address chain s in (store r, console r)
  | SettleQuote c quoteId paymentProof =>
      let r := settleQuote c quoteId paymentProof s in (store r, console r)
  | GetQuote c quoteId =>
      let r := getQuote c quoteId s in (store r, console r)
  | GetSettlement c settlementId =>
      let r := getSettlement c settlementId s in (store r, console r)
  | RefreshReserveStatus c =>
      let r := refreshReserveStatus c s in (store r, console r)
  | GetCacheStats c =>
      let r := getCacheStats c s in (store r, console r)
  | ClearCache c =>
      let r := clearCache c s in (store r, console r)
  | InvalidateGasCache c =>
      let r := invalidateGasCache c s in (store r, console r)
  | RunTests c =>
      let r := runTests c s in (store r, console r)
  | SetError e =>
      let r := setError e s in (store r, console r)
  | ClearError =>
      let r := clearError s in (store r, console r)
  | CreateIcpPayment c amount address chain =>
      let r := createIcpPayment c amount address chain s in (store r, console r)
  | GetSponsorshipStatus c amount chain =>
      let r := getSponsorshipStatus c amount chain s in (store r, console r)
  | GetUserTransactions c =>
      let r := getUserTransactions c s in (store r, console r)
  | GetUserTransaction c transactionId =>
      let r := getUserTransaction c transactionId s in (store r, console r)
  end.

(** One entry of a transcript: the store an action found, the action, and
    what it wrote. *)
Record Entry : Type := mkEntry {
  before : Store;
  action : Action;
  wrote : list Console
}.

(** Actions performed one after the other: the final store and the
    transcript. *)
Fixpoint run (l : list Action) (s : Store) : Store * list Entry :=
  match l with
  | [] => (s, [])
  | a :: rest =>
      let '(s1, out) := perform a s in
      let '(s2, t) := run rest s1 in
      (s2, mkEntry s a out :: t)
  end.




Definition failed (out : list Console) : bool :=
  existsb (fun line => match line with ErrorFailedToInitialize _ => true | _ => false end) out.




(** The four actions that submit something to the canister and cache the
    reply. *)
Inductive Submission : Type :=
| SubmitRequestQuote (amount : Z) (address chain : string)
| SubmitBridgeAssets (amount : Z) (address chain : string)
| SubmitSettleQuote (quoteId paymentProof : string)
| SubmitCreateIcpPayment (amount : Z) (address chain : string).

Definition submit (c : GaslessBridgeCanister) (x : Submission) (s : Store)
    : Reply (option IDL.Val) :=
  match x with
  | SubmitRequestQuote amount address chain => requestQuote c amount address chain s
  | SubmitBridgeAssets amount address chain => bridgeAssets c amount address chain s
  | SubmitSettleQuote quoteId paymentProof => settleQuote c quoteId paymentProof s
  | SubmitCreateIcpPayment amount address chain =>
      createIcpPayment c amount address chain s
  end.

(** The actor call behind each of them. *)
Definition actor_call (c : GaslessBridgeCanister) (x : Submission)
    : Outcome (OkErr IDL.Val) :=
  match x with
  | SubmitRequestQuote amount address chain => request_quote c amount address chain
  | SubmitBridgeAssets amount address chain => bridge_assets c amount address chain
  | SubmitSettleQuote quoteId paymentProof => settle_quote c quoteId paymentProof
  | SubmitCreateIcpPayment amount address chain =>
      create_icp_payment c amount address chain
  end.

(** The three cached collections. *)
Definition collections (s : Store) : list IDL.Val * list IDL.Val * list IDL.Val :=
  (quotes s, settlements s, userTransactions s).

(** The collections after the reply [v] was appended to the one the action
    caches it in. *)
Definition appended (x : Submission) (v : IDL.Val) (s : Store)
    : list IDL.Val * list IDL.Val * list IDL.Val :=
  match x with
  | SubmitRequestQuote _ _ _ => ((quotes s ++ [v])%list, settlements s, userTransactions s)
  | SubmitBridgeAssets _ _ _ => (quotes s, (settlements s ++ [v])%list, userTransactions s)
  | SubmitSettleQuote _ _ => (quotes s, (settlements s ++ [v])%list, userTransactions s)
  | SubmitCreateIcpPayment _ _ _ =>
      (quotes s, settlements s, (userTransactions s ++ [v])%list)
  end.

(** What each catch block puts before the thrown value. *)
Definition failure_prefix (x : Submission) : string :=
  match x with
  | SubmitRequestQuote _ _ _ => "Failed to request quote: "
  | SubmitBridgeAssets _ _ _ => "Failed to bridge assets: "
  | SubmitSettleQuote _ _ => "Failed to settle quote: "
  | SubmitCreateIcpPayment _ _ _ => "Failed to create automatic ICP payment: "
  end.

(** The message of a failed call: the text of [Err], the message of a thrown
    error. *)
Definition failure_message (o : Outcome (OkErr IDL.Val)) : option string :=
  match o with
  | Resolved (Ok _) => None
  | Resolved (Err msg) => Some msg
  | Rejected (ThrownError _ message) => Some message
  | Rejected (ThrownOther repr) => Some repr
  end.

(** A canister that answers every call the same way, for examples. *)
Definition always (reply : Outcome (OkErr IDL.Val)) (status : Outcome IDL.Val)
    : GaslessBridgeCanister :=
  {| request_quote := fun _ _ _ => reply;
     bridge_assets := fun _ _ _ => reply;
     settle_quote := fun _ _ => reply;
     get_quote_by_id := fun _ => reply;
     get_settlement_by_id := fun _ => reply;
     get_detailed_reserve_status := status;
     get_rpc_cache_stats := Resolved (Ok "stats");
     clear_rpc_cache := Resolved (Ok "cleared");
     invalidate_gas_cache := Resolved (Ok "invalidated");
     run_comprehensive_test_suite := Resolved (Ok "passed");
     create_icp_payment := fun _ _ _ => reply;
     get_sponsorship_status := fun _ _ => reply;
     get_user_transactions := Resolved [];
     get_user_transaction := fun _ => Resolved None |}.

(** A canister that is reachable and answers, and a local environment that
    reaches it. *)
Definition healthy_canister : GaslessBridgeCanister :=
  always (Resolved (Err "Quote not found")) (Resolved (IDL.VRecord [])).

Definition reachable_env : InitEnv :=
  {| dfx_network := "ic"; authIdentity := None; fetchRootKey := Resolved tt;
     canister := healthy_canister |}.

(** The store once [initializeCanister] has connected. *)
Definition connected : Store := store (initializeCanister reachable_env initial).




(** The claim that a failed call leaves its own message in [error]. *)
Definition error_is_the_message : Prop :=
  forall (c : GaslessBridgeCanister) (x : Submission) (s : Store) (m : string),
    actor s <> None ->
    failure_message (actor_call c x) = Some m ->
    error (store (submit c x s)) = Some m.

(** A canister whose calls are all rejected with [Error("boom")]. *)
Definition rejecting_canister : GaslessBridgeCanister :=
  always (Rejected (ThrownError "Error" "boom")) (Resolved (IDL.VRecord [])).

End CanisterStore.

(** ** The settlement engine

    The canister itself is written in Rust and its sources are not in the
    tree: only its Candid interface and its client are. The reserve
    manager, the quote engine and the settlement state machine below are
    written from the specification (sections 3, 4.4, 4.5, 4.9, 5 and 7).
    Amounts are unsigned integers taken exactly; gas estimation, pricing,
    payment verification, signing and the chain are answers of the
    environment. Handlers run from one suspension point to the next, so every
    operation below is one atomic step. *)

Module Engine.

Definition Principal : Type := string.

(** *** Errors (section 7) *)

Inductive ValidationErrorKind : Type := BadAddress | AmountOutOfRange | UnsupportedChain.
Inductive ReserveErrorKind : Type := Insufficient | Paused | DailyLimitExceeded.
Inductive QuoteErrorKind : Type := QuoteNotFound | QuoteExpired | AlreadySettled.
Inductive PaymentErrorKind : Type :=
  PaymentNotFound | AmountMismatch | AlreadyUsed | NotFinal.
Inductive RpcErrorKind : Type := Timeout | AllEndpointsDown | BadResponse | UpstreamRevert.
Inductive SignerErrorKind : Type := SignerUnavailable | SignerRejected.
Inductive PriceErrorKind : Type := PriceUnavailable | PriceStale.

(** Modelled from the spec: the error kinds of section 7 (the Rust error type
    is missing). *)
Inductive Error : Type :=
| ValidationError (k : ValidationErrorKind)
| ReserveError (k : ReserveErrorKind)
| QuoteError (k : QuoteErrorKind)
| PaymentError (k : PaymentErrorKind)
| RpcError (k : RpcErrorKind)
| SignerError (k : SignerErrorKind)
| PriceError (k : PriceErrorKind)
| AdminError
| ConfigError.

(** *** The reserve manager (section 4.4) *)

(** Modelled from the spec: the Reserve record of section 3 (the Rust struct
    is missing). *)
Record Reserve : Type := mkReserve {
  balance : N;
  locked : N;
  threshold_warning : N;
  threshold_critical : N;
  daily_limit : N;
  daily_used : N;
  day_anchor_timestamp : N;
  paused : bool;
  last_topup : N
}.

(** [available = balance - locked]; on unsigned integers the difference
    stops at zero. *)
Definition available (r : Reserve) : N := balance r - locked r.

Inductive Health : Type := Healthy | Warning | Critical | Emergency.

(** Modelled from the spec: the derived health of section 4.4. *)
Definition health (r : Reserve) : Health :=
  if paused r || (available r =? 0) then Emergency
  else if threshold_warning r <? available r then Healthy
  else if threshold_critical r <? available r then Warning
  else Critical.

Definition seconds_per_day : N := 86400.

(** Modelled from the spec: [daily_used] starts again when the clock, in
    seconds, has crossed a UTC day boundary since the anchor; every mutation
    looks. *)
Definition roll_day (now : N) (r : Reserve) : Reserve :=
  if now / seconds_per_day =? day_anchor_timestamp r / seconds_per_day then r
  else
    mkReserve (balance r) (locked r) (threshold_warning r) (threshold_critical r)
      (daily_limit r) 0 now (paused r) (last_topup r).

(** Modelled from the spec: [lock(amount)] of section 4.4. *)
Definition lock (now amount : N) (r : Reserve) : Reserve + ReserveErrorKind :=
  let r := roll_day now r in
  if available r <? amount then inr Insufficient
  else if paused r then inr Paused
  else if daily_limit r <? daily_used r + amount then inr DailyLimitExceeded
  else
    inl (mkReserve (balance r) (locked r + amount) (threshold_warning r)
           (threshold_critical r) (daily_limit r) (daily_used r)
           (day_anchor_timestamp r) (paused r) (last_topup r)).

(** Modelled from the spec: [unlock(amount)], which never fails and is
    idempotent on zero. *)
Definition unlock (now amount : N) (r : Reserve) : Reserve :=
  let r := roll_day now r in
  mkReserve (balance r) (locked r - amount) (threshold_warning r)
    (threshold_critical r) (daily_limit r) (daily_used r)
    (day_anchor_timestamp r) (paused r) (last_topup r).

(** Modelled from the spec: [commit(amount)]:
    [balance -= amount; locked -= amount; daily_used += amount]. *)
Definition commit (now amount : N) (r : Reserve) : Reserve :=
  let r := roll_day now r in
  mkReserve (balance r - amount) (locked r - amount) (threshold_warning r)
    (threshold_critical r) (daily_limit r) (daily_used r + amount)
    (day_anchor_timestamp r) (paused r) (last_topup r).

(** Modelled from the spec: [topup(amount)], the deposit of an admin. *)
Definition topup (now amount : N) (r : Reserve) : Reserve :=
  let r := roll_day now r in
  mkReserve (balance r + amount) (locked r) (threshold_warning r)
    (threshold_critical r) (daily_limit r) (daily_used r)
    (day_anchor_timestamp r) (paused r) now.

(** Modelled from the spec: the admin settings of section 4.4. *)
Definition set_thresholds (warning critical : N) (r : Reserve) : Reserve :=
  mkReserve (balance r) (locked r) warning critical (daily_limit r)
    (daily_used r) (day_anchor_timestamp r) (paused r) (last_topup r).

Definition set_daily_limit (limit : N) (r : Reserve) : Reserve :=
  mkReserve (balance r) (locked r) (threshold_warning r) (threshold_critical r)
    limit (daily_used r) (day_anchor_timestamp r) (paused r) (last_topup r).

Definition set_paused (p : bool) (r : Reserve) : Reserve :=
  mkReserve (balance r) (locked r) (threshold_warning r) (threshold_critical r)
    (daily_limit r) (daily_used r) (day_anchor_timestamp r) p (last_topup r).




(** The reserve of a fresh service: nothing owned, nothing locked. *)
Definition empty_reserve (warning critical limit : N) : Reserve :=
  mkReserve 0 0 warning critical limit 0 0 false 0.

(** Modelled from the spec: new quotes are refused when the reserve is paused,
    when [available < threshold_critical], or when the daily limit is used up
    (sections 3 and 5). *)
Definition can_accept_quotes (r : Reserve) : bool :=
  negb (paused r) && (threshold_critical r <=? available r)
  && (daily_used r <? daily_limit r).

Definition health_text (h : Health) : string :=
  match h with
  | Healthy => "Healthy"
  | Warning => "Warning"
  | Critical => "Critical"
  | Emergency => "Emergency"
  end.

(** Modelled from the spec: the report of [get_detailed_reserve_status], with
    the integer fields of the declared record ([utilization_percent], a
    float, and [pending_withdrawals] are left out). *)
Record DetailedReserveStatus : Type := mkStatus {
  status_balance : N;
  status_locked : N;
  status_available : N;
  status_threshold_warning : N;
  status_threshold_critical : N;
  status_daily_volume : N;
  status_daily_limit : N;
  status_health : string;
  status_can_accept_quotes : bool;
  status_last_topup : N
}.

Definition get_detailed_reserve_status (r : Reserve) : DetailedReserveStatus :=
  mkStatus (balance r) (locked r) (available r) (threshold_warning r)
    (threshold_critical r) (daily_used r) (daily_limit r)
    (health_text (health r)) (can_accept_quotes r) (last_topup r).

(** *** Configuration (section 6) *)

(** Modelled from the spec: [BridgeConfig], as the declared record has it. *)
Record BridgeConfig : Type := mkConfig {
  min_quote_amount : N;
  max_quote_amount : N;
  quote_validity_minutes : N;
  max_gas_price : N;
  safety_margin_percent : N;
  supported_chains : list string
}.

(** Modelled from the spec: the defaults it states, a validity of 15 minutes
    and a safety margin of 20 percent; it states none for the other fields. *)
Definition default_config (min_amount max_amount gas_price_cap : N)
    (chains : list string) : BridgeConfig :=
  mkConfig min_amount max_amount 15 gas_price_cap 20 chains.

Definition max_retries : N := 3.

(** *** Quotes and settlements (section 3) *)

Module QuoteStatus.
Inductive t : Type := Active | Settled | Expired | Failed.
End QuoteStatus.

Module SettlementStatus.
Inductive t : Type := Pending | Executing | Completed | Failed.
End SettlementStatus.

Module Quote.

(** Modelled from the spec: the Quote of section 3; an id is the sequence
    number of its monotonic identifier, a time is in seconds. *)
Record t : Type := mk {
  id : N;
  user : Principal;
  amount_requested : N;
  amount_out : N;
  gas_estimate : N;
  base_fee : N;
  priority_fee : N;
  max_fee_per_gas : N;
  safety_margin : N;
  total_cost : N;
  destination_address : string;
  source_chain : string;
  destination_chain : string;
  created_at : N;
  expires_at : N;
  status : QuoteStatus.t
}.

Definition with_status (x : QuoteStatus.t) (q : t) : t :=
  mk (id q) (user q) (amount_requested q) (amount_out q) (gas_estimate q)
    (base_fee q) (priority_fee q) (max_fee_per_gas q) (safety_margin q)
    (total_cost q) (destination_address q) (source_chain q)
    (destination_chain q) (created_at q) (expires_at q) x.

(** What an Active quote keeps reserved: [amount_out + gas_budget]. *)
Definition reservation (q : t) : N :=
  amount_out q + max_fee_per_gas q * gas_estimate q.

End Quote.

Module Settlement.

(** Modelled from the spec: the Settlement of section 3. *)
Record t : Type := mk {
  id : N;
  quote_id : N;
  user : Principal;
  amount : N;
  destination_address : string;
  destination_chain : string;
  payment_proof : string;
  created_at : N;
  status : SettlementStatus.t;
  gas_used : option N;
  transaction_hash : option string;
  retry_count : N;
  last_error : option Error
}.

Definition with_status (x : SettlementStatus.t) (s : t) : t :=
  mk (id s) (quote_id s) (user s) (amount s) (destination_address s)
    (destination_chain s) (payment_proof s) (created_at s) x (gas_used s)
    (transaction_hash s) (retry_count s) (last_error s).

Definition with_transaction_hash (h : string) (s : t) : t :=
  mk (id s) (quote_id s) (user s) (amount s) (destination_address s)
    (destination_chain s) (payment_proof s) (created_at s) (status s)
    (gas_used s) (Some h) (retry_count s) (last_error s).

Definition with_gas_used (g : N) (s : t) : t :=
  mk (id s) (quote_id s) (user s) (amount s) (destination_address s)
    (destination_chain s) (payment_proof s) (created_at s) (status s)
    (Some g) (transaction_hash s) (retry_count s) (last_error s).

Definition with_last_error (e : Error) (s : t) : t :=
  mk (id s) (quote_id s) (user s) (amount s) (destination_address s)
    (destination_chain s) (payment_proof s) (created_at s) (status s)
    (gas_used s) (transaction_hash s) (retry_count s) (Some e).

Definition retried (e : Error) (s : t) : t :=
  mk (id s) (quote_id s) (user s) (amount s) (destination_address s)
    (destination_chain s) (payment_proof s) (created_at s) (status s)
    (gas_used s) (transaction_hash s) (retry_count s + 1) (Some e).

(** A settlement that has not failed. *)
Definition live (s : t) : bool :=
  match status s with
  | SettlementStatus.Failed => false
  | _ => true
  end.

End Settlement.

(** *** The state of the engine (section 4.10) *)

(** Modelled from the spec: the persistent maps the claims are about, quotes
    and settlements keyed by id, with the reserve, the configuration and the
    admins (the audit log and the caches are left out). *)
Record State : Type := mkState {
  reserve : Reserve;
  quotes : gmap N Quote.t;
  settlements : gmap N Settlement.t;
  next_quote_id : N;
  next_settlement_id : N;
  config : BridgeConfig;
  admins : list Principal
}.

Definition with_reserve (r : Reserve) (st : State) : State :=
  mkState r (quotes st) (settlements st) (next_quote_id st)
    (next_settlement_id st) (config st) (admins st).

Definition with_quote (qid : N) (q : Quote.t) (st : State) : State :=
  mkState (reserve st) (<[qid := q]> (quotes st)) (settlements st)
    (next_quote_id st) (next_settlement_id st) (config st) (admins st).

Definition with_settlement (sid : N) (s : Settlement.t) (st : State) : State :=
  mkState (reserve st) (quotes st) (<[sid := s]> (settlements st))
    (next_quote_id st) (next_settlement_id st) (config st) (admins st).

Definition with_config (c : BridgeConfig) (st : State) : State :=
  mkState (reserve st) (quotes st) (settlements st) (next_quote_id st)
    (next_settlement_id st) c (admins st).

Definition with_admin (p : Principal) (st : State) : State :=
  mkState (reserve st) (quotes st) (settlements st) (next_quote_id st)
    (next_settlement_id st) (config st) (p :: admins st).

(** Modelled from the spec: the state at initialisation, with its one
    bootstrap admin and an empty reserve. *)
Definition init (bootstrap_admin : Principal) (cfg : BridgeConfig)
    (warning critical limit : N) : State :=
  mkState (empty_reserve warning critical limit) ∅ ∅ 0 0 cfg [bootstrap_admin].

(** What a step answers. *)
Inductive Response : Type :=
| Quoted (q : Quote.t)
| Settling (s : Settlement.t)
| Done
| Failure (e : Error).

(** *** The quote engine (section 4.5) *)

Definition is_hex_digit (c : ascii) : bool :=
  let n := N_of_ascii c in
  ((48 <=? n) && (n <=? 57)) || ((65 <=? n) && (n <=? 70))
  || ((97 <=? n) && (n <=? 102)).

Fixpoint all_hex (s : string) : bool :=
  match s with
  | EmptyString => true
  | String c rest => is_hex_digit c && all_hex rest
  end.

(** Modelled from the spec: an address is 20 bytes of hex after [0x], in
    either case. *)
Definition valid_address (a : string) : bool :=
  match a with
  | String "0" (String "x" digits) =>
      (String.length digits =? 40)%nat && all_hex digits
  | _ => false
  end.

(** The answers of the gas estimator and of the price feed. The price feed
    works on floating-point prices: the engine receives the priced total,
    rounded up, and the margin in it. *)
Record GasEstimate : Type := mkGas {
  estimated_base_fee : N;
  estimated_priority_fee : N;
  estimated_gas : N
}.

Record Pricing : Type := mkPricing {
  priced_total_cost : N;
  priced_safety_margin : N
}.

Record QuoteEnv : Type := mkQuoteEnv {
  gas_answer : GasEstimate + Error;
  price_answer : N -> Pricing + Error
}.

Definition source_chain_name : string := "ICP".

(** Modelled from the spec: [request_quote] of section 4.5: validate,
    estimate and price, lock [amount_out + gas_budget], persist the quote
    Active with [expires_at] one validity window after [created_at]. *)
Definition request_quote (env : QuoteEnv) (now : N) (user : Principal)
    (amount_out : N) (destination_address destination_chain : string)
    (st : State) : State * Response :=
  let cfg := config st in
  if negb (valid_address destination_address) then
    (st, Failure (ValidationError BadAddress))
  else if negb (existsb (String.eqb destination_chain) (supported_chains cfg)) then
    (st, Failure (ValidationError UnsupportedChain))
  else if (amount_out <? min_quote_amount cfg) || (max_quote_amount cfg <? amount_out) then
    (st, Failure (ValidationError AmountOutOfRange))
  else if paused (reserve st) then (st, Failure (ReserveError Paused))
  else if available (reserve st) <? threshold_critical (reserve st) then
    (st, Failure (ReserveError Insufficient))
  else
    match gas_answer env with
    | inr e => (st, Failure e)
    | inl g =>
        let max_fee := 2 * estimated_base_fee g + estimated_priority_fee g in
        let gas_budget := max_fee * estimated_gas g in
        match price_answer env (amount_out + gas_budget) with
        | inr e => (st, Failure e)
        | inl p =>
            match lock now (amount_out + gas_budget) (reserve st) with
            | inr k => (st, Failure (ReserveError k))
            | inl r =>
                let q :=
                  Quote.mk (next_quote_id st) user amount_out amount_out
                    (estimated_gas g) (estimated_base_fee g)
                    (estimated_priority_fee g) max_fee (priced_safety_margin p)
                    (priced_total_cost p) destination_address source_chain_name
                    destination_chain now
                    (now + 60 * quote_validity_minutes cfg) QuoteStatus.Active in
                (mkState r (<[next_quote_id st := q]> (quotes st)) (settlements st)
                   (next_quote_id st + 1) (next_settlement_id st) cfg (admins st),
                 Quoted q)
            end
        end
    end.

(** Modelled from the spec: the quote becomes [Expired] and gives its
    reservation back ([C4.unlock], section 4.5). *)
Definition expire (now qid : N) (q : Quote.t) (st : State) : State :=
  with_reserve (unlock now (Quote.reservation q) (reserve st))
    (with_quote qid (Quote.with_status QuoteStatus.Expired q) st).

(** Modelled from the spec: [check_expiry(id)]: past [expires_at] and still
    Active, the quote is set Expired and unlocked. *)
Definition check_expiry (now qid : N) (st : State) : State :=
  match quotes st !! qid with
  | Some q =>
      match Quote.status q with
      | QuoteStatus.Active =>
          if Quote.expires_at q <? now then expire now qid q st else st
      | _ => st
      end
  | None => st
  end.

(** Modelled from the spec: the sweep that expires stale quotes. *)
Definition sweep (now : N) (st : State) : State :=
  foldr (check_expiry now) st (map_to_list (quotes st)).*1.

(** *** The settlement engine (section 4.9) *)

(** Modelled from the spec: a quote has a live settlement when some
    settlement that has not failed references it. *)
Definition has_live_settlement (qid : N) (st : State) : bool :=
  existsb (fun s => (Settlement.quote_id s =? qid) && Settlement.live s)
    (map_to_list (settlements st)).*2.

(** Modelled from the spec: a settlement starts Pending, for a quote that is
    found, has no settlement that is not Failed, and has not expired; a second
    one is refused as [AlreadySettled]; an expired quote is unlocked. The
    spec names no error for a quote whose settlement failed on chain: it is
    refused like a settled one. *)
Definition settle_quote (now : N) (caller : Principal) (qid : N)
    (payment_proof : string) (st : State) : State * Response :=
  match quotes st !! qid with
  | None => (st, Failure (QuoteError QuoteNotFound))
  | Some q =>
      if has_live_settlement qid st then (st, Failure (QuoteError AlreadySettled))
      else
        match Quote.status q with
        | QuoteStatus.Settled => (st, Failure (QuoteError AlreadySettled))
        | QuoteStatus.Failed => (st, Failure (QuoteError AlreadySettled))
        | QuoteStatus.Expired => (st, Failure (QuoteError QuoteExpired))
        | QuoteStatus.Active =>
            if Quote.expires_at q <? now then
              (expire now qid q st, Failure (QuoteError QuoteExpired))
            else
              let s :=
                Settlement.mk (next_settlement_id st) qid caller
                  (Quote.amount_out q) (Quote.destination_address q)
                  (Quote.destination_chain q) payment_proof now
                  SettlementStatus.Pending None None 0 None in
              (mkState (reserve st) (quotes st)
                 (<[next_settlement_id st := s]> (settlements st))
                 (next_quote_id st) (next_settlement_id st + 1) (config st)
                 (admins st),
               Settling s)
        end
  end.

(** Modelled from the spec: the settlement that carries a payment proof, if
    there is one (the idempotency sentence of section 4.9). *)
Definition settlement_of_proof (payment_proof : string) (st : State)
    : option Settlement.t :=
  List.find (fun s => String.eqb (Settlement.payment_proof s) payment_proof)
    (map_to_list (settlements st)).*2.

(** Modelled from the spec: [bridge_assets], the combined flow: with a
    payment proof that a settlement already carries, that settlement is
    returned; otherwise a quote is issued and its settlement started with the
    caller's linked payment. *)
Definition bridge_assets (env : QuoteEnv) (now : N) (caller : Principal)
    (amount_out : N) (destination_address destination_chain : string)
    (linked_payment : string) (st : State) : State * Response :=
  match settlement_of_proof linked_payment st with
  | Some s => (st, Settling s)
  | None =>
      match request_quote env now caller amount_out destination_address
              destination_chain st with
      | (st1, Quoted q) => settle_quote now caller (Quote.id q) linked_payment st1
      | (st1, r) => (st1, r)
      end
  end.

(** The answer of the payment verifier, duplicate proofs included. *)
Inductive PaymentVerdict : Type :=
| PaymentVerified
| PaymentRefused (k : PaymentErrorKind).

(** What the chain says of a broadcast transaction. *)
Inductive Receipt : Type :=
| ReceiptSuccess (gas_used effective_gas_price : N)
| ReceiptFailure
| ReceiptTimeout.

(** Modelled from the spec: Pending, with the verifier's answer: Executing,
    or Failed (section 4.9). *)
Definition payment_checked (sid : N) (verdict : PaymentVerdict) (st : State)
    : State * Response :=
  match settlements st !! sid with
  | Some s =>
      match Settlement.status s, verdict with
      | SettlementStatus.Pending, PaymentVerified =>
          let s' := Settlement.with_status SettlementStatus.Executing s in
          (with_settlement sid s' st, Settling s')
      | SettlementStatus.Pending, PaymentRefused k =>
          let s' :=
            Settlement.with_last_error (PaymentError k)
              (Settlement.with_status SettlementStatus.Failed s) in
          (with_settlement sid s' st, Failure (PaymentError k))
      | _, _ => (st, Done)
      end
  | None => (st, Done)
  end.

(** Modelled from the spec: the failure path of an executing settlement: it
    is Failed, what its quote still reserves is unlocked, and the quote is
    Failed. *)
Definition fail_settlement (now sid : N) (s : Settlement.t) (e : Error)
    (st : State) : State :=
  let s' :=
    Settlement.with_last_error e
      (Settlement.with_status SettlementStatus.Failed s) in
  let st1 := with_settlement sid s' st in
  match quotes st !! Settlement.quote_id s with
  | Some q =>
      with_reserve (unlock now (Quote.reservation q) (reserve st1))
        (with_quote (Settlement.quote_id s)
           (Quote.with_status QuoteStatus.Failed q) st1)
  | None => st1
  end.

(** Modelled from the spec: Executing: the transaction was broadcast and its
    hash is recorded (section 4.9). *)
Definition sent (sid : N) (tx_hash : string) (st : State) : State * Response :=
  match settlements st !! sid with
  | Some s =>
      match Settlement.status s with
      | SettlementStatus.Executing =>
          let s' := Settlement.with_transaction_hash tx_hash s in
          (with_settlement sid s' st, Settling s')
      | _ => (st, Done)
      end
  | None => (st, Done)
  end.

(** Modelled from the spec: Executing: sending failed; a transient error is
    retried up to [max_retries] times, anything else fails the settlement
    (section 4.9). *)
Definition send_failed (now sid : N) (transient : bool) (e : Error)
    (st : State) : State * Response :=
  match settlements st !! sid with
  | Some s =>
      match Settlement.status s with
      | SettlementStatus.Executing =>
          if transient && (Settlement.retry_count s <? max_retries) then
            let s' := Settlement.retried e s in
            (with_settlement sid s' st, Settling s')
          else (fail_settlement now sid s e st, Failure e)
      | _ => (st, Done)
      end
  | None => (st, Done)
  end.

(** Modelled from the spec: Executing, with a broadcast transaction: the
    receipt completes the settlement, commits
    [amount + gas_used * effective_gas_price] and settles the quote, or fails
    it (section 4.9). *)
Definition receipt_observed (now sid : N) (receipt : Receipt) (st : State)
    : State * Response :=
  match settlements st !! sid with
  | Some s =>
      match Settlement.status s, Settlement.transaction_hash s with
      | SettlementStatus.Executing, Some _ =>
          match receipt with
          | ReceiptSuccess gas_used effective_gas_price =>
              let s' :=
                Settlement.with_gas_used gas_used
                  (Settlement.with_status SettlementStatus.Completed s) in
              let st1 :=
                with_reserve
                  (commit now (Settlement.amount s + gas_used * effective_gas_price)
                     (reserve st))
                  (with_settlement sid s' st) in
              let st2 :=
                match quotes st !! Settlement.quote_id s with
                | Some q =>
                    with_quote (Settlement.quote_id s)
                      (Quote.with_status QuoteStatus.Settled q) st1
                | None => st1
                end in
              (st2, Settling s')
          | ReceiptFailure =>
              (fail_settlement now sid s (RpcError UpstreamRevert) st,
               Failure (RpcError UpstreamRevert))
          | ReceiptTimeout =>
              (fail_settlement now sid s (RpcError Timeout) st,
               Failure (RpcError Timeout))
          end
      | _, _ => (st, Done)
      end
  | None => (st, Done)
  end.

(** *** The admin surface (sections 4.4 and 4.11) *)

Inductive AdminOp : Type :=
| AddAdmin (p : Principal)
| AdminAddReserveFunds (amount : N)
| AdminSetDailyLimit (limit : N)
| AdminSetReserveThresholds (warning critical : N)
| AdminEmergencyPause
| AdminEmergencyUnpause
| UpdateConfig (cfg : BridgeConfig).

Definition is_admin (caller : Principal) (st : State) : bool :=
  existsb (String.eqb caller) (admins st).

(** Modelled from the spec: the admin endpoints; a caller outside the admins
    gets [NotAdmin]. *)
Definition admin (now : N) (caller : Principal) (op : AdminOp) (st : State)
    : State * Response :=
  if is_admin caller st then
    (match op with
     | AddAdmin p => with_admin p st
     | AdminAddReserveFunds amount => with_reserve (topup now amount (reserve st)) st
     | AdminSetDailyLimit limit => with_reserve (set_daily_limit limit (reserve st)) st
     | AdminSetReserveThresholds warning critical =>
         with_reserve (set_thresholds warning critical (reserve st)) st
     | AdminEmergencyPause => with_reserve (set_paused true (reserve st)) st
     | AdminEmergencyUnpause => with_reserve (set_paused false (reserve st)) st
     | UpdateConfig cfg => with_config cfg st
     end, Done)
  else (st, Failure AdminError).

(** *** Runs of the engine *)

Inductive Op : Type :=
| RequestQuote (env : QuoteEnv) (user : Principal) (amount_out : N)
    (destination_address destination_chain : string)
| CheckExpiry (qid : N)
| Sweep
| SettleQuote (caller : Principal) (qid : N) (payment_proof : string)
| BridgeAssets (env : QuoteEnv) (caller : Principal) (amount_out : N)
    (destination_address destination_chain linked_payment : string)
| PaymentChecked (sid : N) (verdict : PaymentVerdict)
| Sent (sid : N) (tx_hash : string)
| SendFailed (sid : N) (transient : bool) (e : Error)
| ReceiptObserved (sid : N) (receipt : Receipt)
| Admin (caller : Principal) (op : AdminOp).

(** Modelled from the spec: one atomic step of the engine at time [now],
    between two suspension points (section 5). *)
Definition step (now : N) (op : Op) (st : State) : State * Response :=
  match op with
  | RequestQuote env user amount_out address chain =>
      request_quote env now user amount_out address chain st
  | CheckExpiry qid => (check_expiry now qid st, Done)
  | Sweep => (sweep now st, Done)
  | SettleQuote caller qid proof => settle_quote now caller qid proof st
  | BridgeAssets env caller amount_out address chain linked =>
      bridge_assets env now caller amount_out address chain linked st
  | PaymentChecked sid verdict => payment_checked sid verdict st
  | Sent sid tx_hash => sent sid tx_hash st
  | SendFailed sid transient e => send_failed now sid transient e st
  | ReceiptObserved sid receipt => receipt_observed now sid receipt st
  | Admin caller op => admin now caller op st
  end.

(** Modelled from the spec: the steps of a run, each at its time, one after
    the other (handlers interleave only at suspension points, section 5). *)
Fixpoint run (ops : list (N * Op)) (st : State) : State :=
  match ops with
  | [] => st
  | (now, op) :: rest => run rest (fst (step now op st))
  end.

(** The settlements of a quote that have not failed. *)
Definition live_settlements (qid : N) (st : State) : list Settlement.t :=
  List.filter (fun s => (Settlement.quote_id s =? qid) && Settlement.live s)
    (map_to_list (settlements st)).*2.

(** *** What the engine keeps *)



(** Two settlements of one quote that have both not failed are the same
    record. *)
Definition unique_live (st : State) : Prop :=
  forall (i j : N) (si sj : Settlement.t),
    settlements st !! i = Some si ->
    settlements st !! j = Some sj ->
    Settlement.quote_id si = Settlement.quote_id sj ->
    Settlement.live si = true ->
    Settlement.live sj = true ->
    i = j.

(** Every settlement is the settlement of a stored quote. *)
Definition settlements_reference_quotes (st : State) : Prop :=
  forall (i : N) (s : Settlement.t),
    settlements st !! i = Some s -> is_Some (quotes st !! Settlement.quote_id s).

(** The ids handed out so far are below the next one. *)
Definition quote_ids_fresh (st : State) : Prop :=
  forall (qid : N) (q : Quote.t), quotes st !! qid = Some q -> qid < next_quote_id st.

(** At most one settlement that has not failed references each quote. *)
Definition one_live_settlement_per_quote (st : State) : Prop :=
  forall qid : N, (length (live_settlements qid st) <= 1)%nat.

(** A step at [now] from [st] to [st']: a quote that was stored keeps its
    times, a new one starts at [now] and ends one validity window later. *)
Definition quote_times (now : N) (st st' : State) : Prop :=
  forall (qid : N) (q' : Quote.t),
    quotes st' !! qid = Some q' ->
    match quotes st !! qid with
    | Some q =>
        Quote.created_at q' = Quote.created_at q
        /\ Quote.expires_at q' = Quote.expires_at q
    | None =>
        Quote.created_at q' = now
        /\ Quote.expires_at q'
           = Quote.created_at q' + 60 * quote_validity_minutes (config st)
    end.

(** What every step keeps of the settlements. *)
Definition settlements_ok (st : State) : Prop :=
  unique_live st /\ settlements_reference_quotes st.

(** A step that issues no quote: every stored quote was stored before, with
    the same times. *)
Definition quotes_kept (st st' : State) : Prop :=
  forall (qid : N) (q' : Quote.t),
    quotes st' !! qid = Some q' ->
    exists q : Quote.t,
      quotes st !! qid = Some q
      /\ Quote.created_at q' = Quote.created_at q
      /\ Quote.expires_at q' = Quote.expires_at q.

(** A step that issues no quote and hands out no id. *)
Definition no_quote_issued (st st' : State) : Prop :=
  quotes_kept st st' /\ next_quote_id st' = next_quote_id st.

(** The environment of scenario A: 30 gwei base fee, 1 gwei priority fee,
    21000 gas, and a price feed that answers 600.008 source tokens. *)
Definition scenario_env : QuoteEnv :=
  mkQuoteEnv (inl (mkGas 30000000000 1000000000 21000))
    (fun _ => inl (mkPricing 60000800000 10000133333)).

Definition scenario_config : BridgeConfig :=
  default_config 1000000000000000 5000000000000000000 500000000000
    ["Base Sepolia"].

Definition scenario_address : string := "0x742d35Cc6634C0532925a3b844Bc9e7595f03Ab0".

(** A funded service that has issued one quote and started to settle it. *)
Definition scenario_ops : list (N * Op) :=
  [(100, Admin "admin" (AdminAddReserveFunds 10000000000000000000));
   (200, RequestQuote scenario_env "alice" 1000000000000000000 scenario_address
           "Base Sepolia");
   (300, SettleQuote "alice" 0 "proof-1");
   (310, PaymentChecked 0 PaymentVerified)].

Definition scenario_state : State :=
  run scenario_ops
    (init "admin" scenario_config 1000000000000000000 100000000000000000
       100000000000000000000).

End Engine.

(** ** The bridge store (frontend/src/stores/bridge.store.ts) *)

Module BridgeStore.

(** [BridgeStore]: the bridge data, which may be undefined, and the cached
    replies. *)
Record BridgeStore : Type := mkBridgeStore {
  sourceToken : option string;
  destinationToken : option string;
  amount : option Z;
  destinationAddress : option string;
  destinationChain : option string;
  quotes : list IDL.Val;
  settlements : list IDL.Val;
  reserveStatus : option IDL.Val;
  isLoading : bool;
  error : option string
}.

Definition initial : BridgeStore :=
  mkBridgeStore None None None None None [] [] None false None.

Definition setSourceToken (token : string) (s : BridgeStore) : BridgeStore :=
  mkBridgeStore (Some token) (destinationToken s) (amount s) (destinationAddress s)
    (destinationChain s) (quotes s) (settlements s) (reserveStatus s)
    (isLoading s) (error s).

Definition setDestinationToken (token : string) (s : BridgeStore) : BridgeStore :=
  mkBridgeStore (sourceToken s) (Some token) (amount s) (destinationAddress s)
    (destinationChain s) (quotes s) (settlements s) (reserveStatus s)
    (isLoading s) (error s).

Definition setAmount (a : Z) (s : BridgeStore) : BridgeStore :=
  mkBridgeStore (sourceToken s) (destinationToken s) (Some a) (destinationAddress s)
    (destinationChain s) (quotes s) (settlements s) (reserveStatus s)
    (isLoading s) (error s).

Definition setDestinationAddress (address : string) (s : BridgeStore) : BridgeStore :=
  mkBridgeStore (sourceToken s) (destinationToken s) (amount s) (Some address)
    (destinationChain s) (quotes s) (settlements s) (reserveStatus s)
    (isLoading s) (error s).

Definition setDestinationChain (chain : string) (s : BridgeStore) : BridgeStore :=
  mkBridgeStore (sourceToken s) (destinationToken s) (amount s)
    (destinationAddress s) (Some chain) (quotes s) (settlements s)
    (reserveStatus s) (isLoading s) (error s).

Definition addQuote (quote : IDL.Val) (s : BridgeStore) : BridgeStore :=
  mkBridgeStore (sourceToken s) (destinationToken s) (amount s)
    (destinationAddress s) (destinationChain s) (quotes s ++ [quote])
    (settlements s) (reserveStatus s) (isLoading s) (error s).

Definition addSettlement (settlement : IDL.Val) (s : BridgeStore) : BridgeStore :=
  mkBridgeStore (sourceToken s) (destinationToken s) (amount s)
    (destinationAddress s) (destinationChain s) (quotes s)
    (settlements s ++ [settlement]) (reserveStatus s) (isLoading s) (error s).

Definition setReserveStatus (status : IDL.Val) (s : BridgeStore) : BridgeStore :=
  mkBridgeStore (sourceToken s) (destinationToken s) (amount s)
    (destinationAddress s) (destinationChain s) (quotes s) (settlements s)
    (Some status) (isLoading s) (error s).

Definition setLoading (loading : bool) (s : BridgeStore) : BridgeStore :=
  mkBridgeStore (sourceToken s) (destinationToken s) (amount s)
    (destinationAddress s) (destinationChain s) (quotes s) (settlements s)
    (reserveStatus s) loading (error s).

Definition setError (e : option string) (s : BridgeStore) : BridgeStore :=
  mkBridgeStore (sourceToken s) (destinationToken s) (amount s)
    (destinationAddress s) (destinationChain s) (quotes s) (settlements s)
    (reserveStatus s) (isLoading s) e.

Definition clearError (s : BridgeStore) : BridgeStore := setError None s.

Definition resetBridgeData (s : BridgeStore) : BridgeStore :=
  mkBridgeStore None None None None None (quotes s) (settlements s)
    (reserveStatus s) (isLoading s) (error s).

(** JS truthiness of a string and of a bigint that may be undefined. *)
Definition truthy_string (x : option string) : bool :=
  match x with
  | Some text => negb (String.eqb text EmptyString)
  | None => false
  end.

Definition truthy_bigint (x : option Z) : bool :=
  match x with
  | Some n => negb (n =? 0)%Z
  | None => false
  end.

(** [object.key] of a decoded record. *)
Definition field (key : string) (v : IDL.Val) : option IDL.Val :=
  match v with
  | IDL.VRecord fields => IDL.assoc key fields
  | _ => None
  end.

(** ['Tag' in value.status]: the status of the record carries this tag (on a
    value without a variant status the operator throws; the values of the
    stores are decoded records, which have one). *)
Definition status_in (tag : string) (v : IDL.Val) : bool :=
  match field "status" v with
  | Some (IDL.VVariant t _) => String.eqb t tag
  | _ => false
  end.

(** [store.reserveStatus?.can_accept_quotes], as a condition. *)
Definition can_accept_quotes (s : BridgeStore) : bool :=
  match reserveStatus s with
  | Some status =>
      match field "can_accept_quotes" status with
      | Some (IDL.VBool b) => b
      | _ => false
      end
  | None => false
  end.

(** What [useBridgeDerived] returns. *)
Record Derived : Type := mkDerived {
  isBridgeDataComplete : bool;
  canRequestQuote : bool;
  activeQuotes : list IDL.Val;
  pendingSettlements : list IDL.Val;
  completedSettlements : list IDL.Val;
  failedSettlements : list IDL.Val
}.

Definition useBridgeDerived (store : BridgeStore) : Derived :=
  let complete :=
    truthy_string (sourceToken store) && truthy_string (destinationToken store)
    && truthy_bigint (amount store) && truthy_string (destinationAddress store)
    && truthy_string (destinationChain store) in
  mkDerived complete
    (complete && can_accept_quotes store && negb (isLoading store))
    (List.filter (status_in "Active") (quotes store))
    (List.filter (fun x => status_in "Pending" x || status_in "Executing" x)
       (settlements store))
    (List.filter (status_in "Completed") (settlements store))
    (List.filter (status_in "Failed") (settlements store)).

(** A settlement that is being executed, for examples. *)
Definition executing_settlement : IDL.Val :=
  IDL.VRecord
    [("id", IDL.VText "s-1"); ("quote_id", IDL.VText "q-1");
     ("user_principal", IDL.VPrincipal "aaaaa-aa"); ("amount", IDL.VNat 5);
     ("destination_address", IDL.VText "0x742d35Cc6634C0532925a3b844Bc9e7595f03Ab0");
     ("destination_chain", IDL.VText "Base Sepolia");
     ("payment_proof", IDL.VText "proof"); ("created_at", IDL.VNat 1);
     ("status", IDL.tag_only "Executing"); ("gas_used", IDL.VOpt None);
     ("transaction_hash", IDL.VOpt None); ("retry_count", IDL.VNat 0);
     ("last_error", IDL.VOpt None)].

(** The five setters of the bridge data, for runs. *)
Inductive DataAction : Type :=
| SetSourceToken (token : string)
| SetDestinationToken (token : string)
| SetAmount (a : Z)
| SetDestinationAddress (address : string)
| SetDestinationChain (chain : string).

Definition set_data (a : DataAction) (s : BridgeStore) : BridgeStore :=
  match a with
  | SetSourceToken token => setSourceToken token s
  | SetDestinationToken token => setDestinationToken token s
  | SetAmount x => setAmount x s
  | SetDestinationAddress address => setDestinationAddress address s
  | SetDestinationChain chain => setDestinationChain chain s
  end.

End BridgeStore.

(** ** The bridge service (frontend/src/services/bridge.services.ts) *)

Module BridgeServices.

Inductive ProgressStepsBridge : Type := BRIDGE | EXECUTE | COMPLETE | UPDATE_UI.

Inductive BridgeErrorCodes : Type :=
| BRIDGE_FAILED
| EXECUTION_FAILED
| INSUFFICIENT_FUNDS
| INVALID_ADDRESS
| RESERVE_UNAVAILABLE.

Inductive Variant : Type := VariantError | VariantWarning | VariantInfo.

Record BridgeError : Type := mkBridgeError {
  variant : Variant;
  message : string;
  errorType : option BridgeErrorCodes
}.

Record BridgeResult : Type := mkBridgeResult {
  settlement : option IDL.Val;
  success : bool;
  error : option BridgeError
}.

(** What the service does besides the two stores: the callbacks of its
    caller, the busy mask and the toasts. *)
Inductive Effect : Type :=
| Progress (step : ProgressStepsBridge)
| FailedProgressStep (step : ProgressStepsBridge)
| BusyShow
| BusyStop
| ToastSuccess (text : string)
| ToastError (text : string).

Definition bridge_failed : BridgeError :=
  mkBridgeError VariantError "Failed to bridge assets" (Some BRIDGE_FAILED).

(** The two stores the service works on. *)
Record Stores : Type := mkStores {
  canisterStore : CanisterStore.Store;
  bridgeStore : BridgeStore.BridgeStore
}.

(** [bridgeAssets(params)]: the store's action does the call (and never
    throws, so the catch block is not entered); the callbacks are taken to
    return. [setFailedProgressStep] says whether the caller passed this
    optional callback. *)
Definition bridgeAssets (c : CanisterStore.GaslessBridgeCanister) (amount : Z)
    (destinationAddress destinationChain : string) (setFailedProgressStep : bool)
    (w : Stores) : BridgeResult * Stores * list Effect :=
  let r :=
    CanisterStore.bridgeAssets c amount destinationAddress destinationChain
      (canisterStore w) in
  match CanisterStore.returned r with
  | None =>
      (mkBridgeResult None false (Some bridge_failed),
       mkStores (CanisterStore.store r) (bridgeStore w),
       ([Progress BRIDGE; BusyShow]
        ++ (if setFailedProgressStep then [FailedProgressStep BRIDGE] else [])
        ++ [BusyStop])%list)
  | Some settlement =>
      (mkBridgeResult (Some settlement) true None,
       mkStores (CanisterStore.store r)
         (BridgeStore.addSettlement settlement (bridgeStore w)),
       [Progress BRIDGE; BusyShow; Progress COMPLETE;
        ToastSuccess "Assets bridged successfully"; BusyStop])
  end.

(** The deprecated entries of [bridgeService]. *)
Definition fetchBridgeQuote := bridgeAssets.

Definition fetchBridgeSettlement : BridgeResult :=
  mkBridgeResult None false
    (Some (mkBridgeError VariantError
             "Manual settlement is deprecated, use automatic bridge_assets instead"
             (Some BRIDGE_FAILED))).

Definition executeBridgeTransaction := bridgeAssets.

(** A page that uses the client store directly and the service: one call of
    either. *)
Inductive Call : Type :=
| StoreAction (a : CanisterStore.Action)
| ServiceBridgeAssets (c : CanisterStore.GaslessBridgeCanister) (amount : Z)
    (destinationAddress destinationChain : string) (setFailedProgressStep : bool).

Definition call (x : Call) (w : Stores) : Stores :=
  match x with
  | StoreAction a =>
      mkStores (fst (CanisterStore.perform a (canisterStore w))) (bridgeStore w)
  | ServiceBridgeAssets c amount destinationAddress destinationChain failed =>
      snd (fst (bridgeAssets c amount destinationAddress destinationChain failed w))
  end.

Definition calls (l : list Call) (w : Stores) : Stores :=
  fold_left (fun w x => call x w) l w.

Definition initial : Stores := mkStores CanisterStore.initial BridgeStore.initial.

(** The direct store actions that cache a settlement. *)
Definition settles_directly (x : Call) : bool :=
  match x with
  | StoreAction (CanisterStore.BridgeAssets _ _ _ _) => true
  | StoreAction (CanisterStore.SettleQuote _ _ _) => true
  | _ => false
  end.

End BridgeServices.

(** ** The auth store (frontend/src/hooks/useAuth.ts) *)

Module Auth.

(** An [AuthClient] object, told apart by the order of creation. *)
Inductive AuthClient : Type :=
| NewAuthClient (serial : N).

(** [identity.getPrincipal().toString()]. *)
Definition principal_text (i : CanisterStore.Identity) : string :=
  match i with
  | CanisterStore.AnonymousIdentity => "2vxsx-fae"
  | CanisterStore.AuthenticatedIdentity p => p
  end.

Record AuthStoreData : Type := mkData {
  identity : option CanisterStore.Identity;
  isAuthenticated : bool;
  principal : option string;
  isLoading : bool;
  error : option string;
  authClient : option AuthClient
}.

(** The module: its variable [authClient], the store, and how many clients
    were created. *)
Record World : Type := mkWorld {
  moduleAuthClient : option AuthClient;
  state : AuthStoreData;
  created : N
}.

Definition initial : World :=
  mkWorld None (mkData None false None false None None) 0.

(** [authClient ?? (await createAuthClient())]: the client, and the world
    after one was created if there was none. *)
Definition ensureAuthClient (w : World) : AuthClient * World :=
  match moduleAuthClient w with
  | Some client => (client, w)
  | None =>
      (NewAuthClient (created w),
       mkWorld (Some (NewAuthClient (created w))) (state w) (created w + 1))
  end.

(** What the client answers: whether a session is open, and its identity. *)
Record Session : Type := mkSession {
  authenticated : bool;
  sessionIdentity : CanisterStore.Identity
}.

Definition sync (session : Session) (w : World) : World :=
  let '(client, w1) := ensureAuthClient w in
  let isAuth := authenticated session in
  mkWorld (moduleAuthClient w1)
    (mkData (if isAuth then Some (sessionIdentity session) else None) isAuth
       (if isAuth then Some (principal_text (sessionIdentity session)) else None)
       false None (Some client))
    (created w1).

(** How [login] ends: it calls [onSuccess] or [onError]. *)
Inductive LoginOutcome : Type :=
| LoginSuccess (i : CanisterStore.Identity)
| LoginError (e : CanisterStore.Thrown).

(** [x || null] of a string. *)
Definition non_empty (text : string) : option string :=
  if String.eqb text EmptyString then None else Some text.

Definition signIn (outcome : LoginOutcome) (w : World)
    : CanisterStore.Outcome unit * World :=
  let '(client, w1) := ensureAuthClient w in
  match outcome with
  | LoginSuccess i =>
      (CanisterStore.Resolved tt,
       mkWorld (moduleAuthClient w1)
         (mkData (Some i) true (non_empty (principal_text i)) false None
            (moduleAuthClient w1))
         (created w1))
  | LoginError e => (CanisterStore.Rejected e, w1)
  end.

Definition signOut (w : World) : World :=
  let '(client, w1) := ensureAuthClient w in
  mkWorld None
    (mkData None false None (isLoading (state w1)) None None)
    (created w1).

Definition setForTesting (node_env : string) (i : CanisterStore.Identity)
    (w : World) : CanisterStore.Outcome unit * World :=
  if String.eqb node_env "test" then
    (CanisterStore.Resolved tt,
     mkWorld (moduleAuthClient w)
       (mkData (Some i) true (Some (principal_text i)) (isLoading (state w))
          (error (state w)) (authClient (state w)))
       (created w))
  else
    (CanisterStore.Rejected
       (CanisterStore.ThrownError "Error"
          "This function should only be used in test environment"),
     w).

Definition setError (e : option string) (w : World) : World :=
  mkWorld (moduleAuthClient w)
    (mkData (identity (state w)) (isAuthenticated (state w)) (principal (state w))
       (isLoading (state w)) e (authClient (state w)))
    (created w).

Inductive Action : Type :=
| Sync (session : Session)
| SignIn (outcome : LoginOutcome)
| SignOut
| SetForTesting (node_env : string) (i : CanisterStore.Identity)
| SetError (e : option string).

Definition perform (a : Action) (w : World) : World :=
  match a with
  | Sync session => sync session w
  | SignIn outcome => snd (signIn outcome w)
  | SignOut => signOut w
  | SetForTesting node_env i => snd (setForTesting node_env i w)
  | SetError e => setError e w
  end.

Definition run (l : list Action) (w : World) : World :=
  fold_left (fun w a => perform a w) l w.

(** [window.authStore?.getState()] as [initializeCanister] reads it, the auth
    store being there or not. *)
Definition init_env (authStore : option World) (network : string)
    (rootKey : CanisterStore.Outcome unit)
    (c : CanisterStore.GaslessBridgeCanister) : CanisterStore.InitEnv :=
  {| CanisterStore.dfx_network := network;
     CanisterStore.authIdentity :=
       match authStore with
       | Some w => identity (state w)
       | None => None
       end;
     CanisterStore.fetchRootKey := rootKey;
     CanisterStore.canister := c |}.

(** One successful sign-in, for examples. *)
Definition sign_in_once : list Action :=
  [SignIn (LoginSuccess (CanisterStore.AuthenticatedIdentity "un4fu-tqaaa-aaaab-qadjq-cai"))].

(** A signed-in or signed-out store is coherent: it is authenticated exactly
    when it holds an identity, a principal only with an identity, and its
    client is the one of the module. *)
Definition coherent (w : World) : Prop :=
  (isAuthenticated (state w) = true <-> identity (state w) <> None)
  /\ (identity (state w) = None -> principal (state w) = None)
  /\ (authClient (state w) <> None ->
      authClient (state w) = moduleAuthClient w)
  /\ (forall serial, moduleAuthClient w = Some (NewAuthClient serial) ->
      serial < created w).

End Auth.

(** ** Runs of the client store, for the properties below *)

Module StoreRuns.

(** The store a run leaves. *)
Definition final (l : list CanisterStore.Action) (s : CanisterStore.Store)
    : CanisterStore.Store :=
  fst (CanisterStore.run l s).

(** A store that says it is connected has its agent, its actor and a reserve
    status. *)
Definition connection_coherent (s : CanisterStore.Store) : Prop :=
  CanisterStore.isConnected s = true ->
  CanisterStore.agent s <> None /\ CanisterStore.actor s <> None
  /\ CanisterStore.reserveStatus s <> None.

(** The environment with another answer of [fetchRootKey]. *)
Definition with_fetchRootKey (k : CanisterStore.Outcome unit)
    (env : CanisterStore.InitEnv) : CanisterStore.InitEnv :=
  {| CanisterStore.dfx_network := CanisterStore.dfx_network env;
     CanisterStore.authIdentity := CanisterStore.authIdentity env;
     CanisterStore.fetchRootKey := k;
     CanisterStore.canister := CanisterStore.canister env |}.

(** A list only grew at its end. *)
Definition extends (old new : list IDL.Val) : Prop :=
  exists added, new = (old ++ added)%list.

Definition is_connecting (a : CanisterStore.Action) : bool :=
  match a with
  | CanisterStore.InitializeCanister _ => true
  | CanisterStore.RetryConnection _ => true
  | _ => false
  end.

Definition is_setError (a : CanisterStore.Action) : bool :=
  match a with
  | CanisterStore.SetError _ => true
  | _ => false
  end.

(** The store has its initial values, but for [error]. *)
Definition untouched (s : CanisterStore.Store) : Prop :=
  CanisterStore.set_error None s = CanisterStore.initial.

(** What the connection attempt of [initializeCanister] meets: the root key
    is fetched on the local network only, then the reserve status is read. *)
Definition handshake (env : CanisterStore.InitEnv) : CanisterStore.Outcome IDL.Val :=
  match
    (if String.eqb (CanisterStore.dfx_network env) "local"
     then CanisterStore.fetchRootKey env
     else CanisterStore.Resolved tt)
  with
  | CanisterStore.Rejected e => CanisterStore.Rejected e
  | CanisterStore.Resolved _ =>
      CanisterStore.get_detailed_reserve_status (CanisterStore.canister env)
  end.

(** A local replica that is down, for examples. *)
Definition unreachable_env : CanisterStore.InitEnv :=
  {| CanisterStore.dfx_network := "local";
     CanisterStore.authIdentity := None;
     CanisterStore.fetchRootKey :=
       CanisterStore.Rejected (CanisterStore.ThrownError "Error" "network down");
     CanisterStore.canister := CanisterStore.healthy_canister |}.

(** The actions that only read from the canister and return what they read. *)
Inductive Lookup : Type :=
| LookupQuote (quoteId : string)
| LookupSettlement (settlementId : string)
| LookupUserTransaction (transactionId : string).

Definition lookup_reply (c : CanisterStore.GaslessBridgeCanister) (x : Lookup)
    (s : CanisterStore.Store) : CanisterStore.Reply (option IDL.Val) :=
  match x with
  | LookupQuote quoteId => CanisterStore.getQuote c quoteId s
  | LookupSettlement settlementId => CanisterStore.getSettlement c settlementId s
  | LookupUserTransaction transactionId =>
      CanisterStore.getUserTransaction c transactionId s
  end.

End StoreRuns.

(** * Properties *)

(** * The interface factories *)

Section Typing.
Import IDL.

Lemma has_type_Variant (tags : list (string * Ty)) (tag : string) (x : Val) :
  has_type (Variant tags) (VVariant tag x)
  = match assoc tag tags with
    | Some t => has_type t x
    | None => false
    end.
Proof.
  induction tags as [|[k t] rest IH]; simpl; [reflexivity|].
  destruct (String.eqb k tag); [reflexivity|exact IH].
Qed.

Lemma has_type_Variant_inv (tags : list (string * Ty)) (v : Val) :
  has_type (Variant tags) v = true ->
  exists tag x t, v = VVariant tag x /\ assoc tag tags = Some t /\ has_type t x = true.
Proof.
  destruct v as [| | | | | | | | |tag x]; try (simpl; discriminate).
  rewrite has_type_Variant. destruct (assoc tag tags) as [t|] eqn:E; [|discriminate].
  intros H. exists tag, x, t. auto.
Qed.

Lemma has_type_Null (v : Val) : has_type Null v = true <-> v = VNull.
Proof. destruct v; simpl; split; intros H; congruence. Qed.

Lemma has_type_Text (v : Val) : has_type Text v = true <-> exists s, v = VText s.
Proof.
  destruct v; simpl; split; intros H;
    first [discriminate H | now destruct H | eauto].
Qed.

(** The values of a variant whose tags carry nothing are its tags. *)
Lemma has_type_enum (tags : list string) (v : Val) :
  has_type (Variant (map (fun k => (k, Null)) tags)) v = true
  <-> exists tag, In tag tags /\ v = tag_only tag.
Proof.
  split.
  - intros H. apply has_type_Variant_inv in H as (tag & x & t & -> & Ha & Hx).
    exists tag. revert Ha. induction tags as [|k rest IH]; simpl; [discriminate|].
    destruct (String.eqb_spec k tag) as [->|Hne].
    + intros [= <-]. apply has_type_Null in Hx as ->. split; [now left|reflexivity].
    + intros Ha. destruct (IH Ha) as [Hin Hv]. split; [now right|exact Hv].
  - intros (tag & Hin & ->). unfold tag_only. rewrite has_type_Variant.
    induction tags as [|k rest IH]; simpl in *; [contradiction|].
    destruct (String.eqb_spec k tag) as [->|Hne]; [reflexivity|].
    destruct Hin as [->|Hin]; [contradiction|]. apply IH, Hin.
Qed.

Lemma has_type_ok_err (T : Ty) (v : Val) :
  has_type (ok_err T) v = true
  <-> (exists x, v = VVariant "Ok" x /\ has_type T x = true)
      \/ (exists msg, v = VVariant "Err" (VText msg)).
Proof.
  split.
  - intros H. apply has_type_Variant_inv in H as (tag & x & t & -> & Ha & Hx).
    cbn [assoc] in Ha. destruct (String.eqb_spec "Ok" tag) as [<-|_].
    + simplify_eq. left. eauto.
    + destruct (String.eqb_spec "Err" tag) as [<-|_]; [|discriminate Ha].
      simplify_eq. apply has_type_Text in Hx as [msg ->]. right. eauto.
  - intros [(x & -> & Hx)|(msg & ->)]; unfold ok_err; rewrite has_type_Variant;
      simpl; auto.
Qed.

End Typing.

(** C3, as stated, fails on the canister's interface: [Failed] is no value of
    the [QuoteStatus] the service declares, so the status of a quote does not
    range over the four values. *)
Lemma quote_status_failed_not_declared :
  ~ (forall v : IDL.Val,
       IDL.has_type ServiceDid.QuoteStatus v = true
       <-> In v (map IDL.tag_only ["Active"; "Settled"; "Expired"; "Failed"])).
Proof.
  intros H. specialize (H (IDL.tag_only "Failed")).
  destruct H as [_ H]. simpl in H.
  assert (IDL.has_type ServiceDid.QuoteStatus (IDL.tag_only "Failed") = true) as E
    by (apply H; auto).
  vm_compute in E. discriminate.
Qed.

(** C3, amended: the [QuoteStatus] of the canister's interface has exactly the
    three values Active, Expired and Settled; only the interface the client
    store writes by hand has the four values Active, Settled, Expired and
    Failed. *)
Theorem quote_status_domain (v : IDL.Val) :
  (IDL.has_type ServiceDid.QuoteStatus v = true
   <-> In v (map IDL.tag_only ["Active"; "Expired"; "Settled"]))
  /\ (IDL.has_type CanisterStore.QuoteStatus v = true
      <-> In v (map IDL.tag_only ["Active"; "Settled"; "Expired"; "Failed"])).
Proof.
  split.
  - change ServiceDid.QuoteStatus
      with (IDL.Variant (map (fun k => (k, IDL.Null)) ["Active"; "Expired"; "Settled"])).
    rewrite has_type_enum, in_map_iff. split; intros (tag & H1 & H2); eauto.
  - change CanisterStore.QuoteStatus
      with (IDL.Variant (map (fun k => (k, IDL.Null))
                           ["Active"; "Settled"; "Expired"; "Failed"])).
    rewrite has_type_enum, in_map_iff. split; intros (tag & H1 & H2); eauto.
Qed.


(** C8 fails on the code: the service has no method [get_quote_by_id] and none
    [get_settlement_by_id], and seven of the fourteen methods the client store
    declares are not matched by the service with the same argument and result
    types. *)
Theorem frontend_binding_mismatch :
  IDL.assoc "get_quote_by_id" ServiceDid.idlFactory = None
  /\ IDL.assoc "get_settlement_by_id" ServiceDid.idlFactory = None
  /\ IDL.unmatched ServiceDid.idlFactory CanisterStore.idlFactory
     = ["request_quote"; "get_quote_by_id"; "get_settlement_by_id";
        "get_rpc_cache_stats"; "clear_rpc_cache"; "invalidate_gas_cache";
        "run_comprehensive_test_suite"].
Proof. repeat split; vm_compute; reflexivity. Qed.

Section StoreSubmissions.
Import CanisterStore.

(** C9, amended: for requestQuote, bridgeAssets, settleQuote and
    createIcpPayment on a connected store, a reply Ok(v) is returned and
    appended to the action's collection; a reply Err(msg) returns null, sets
    [error] to msg and leaves the three collections as they were; a thrown
    value returns null, leaves the collections as they were and sets [error] to
    the action's own prefix followed by the string form of the thrown value. *)
Theorem submit_outcomes (c : GaslessBridgeCanister) (x : Submission) (s : Store) :
  actor s <> None ->
  let r := submit c x s in
  match actor_call c x with
  | Resolved (Ok v) =>
      returned r = Some v /\ collections (store r) = appended x v s
  | Resolved (Err msg) =>
      returned r = None /\ error (store r) = Some msg
      /\ collections (store r) = collections s
  | Rejected e =>
      returned r = None
      /\ error (store r) = Some (failure_prefix x ++ to_string e)
      /\ collections (store r) = collections s
  end.
Proof.
  intros Hactor. destruct x; cbn [submit actor_call appended failure_prefix];
    unfold requestQuote, bridgeAssets, settleQuote, createIcpPayment;
    destruct (actor s) as [a|]; try congruence;
    match goal with |- context [match ?call with _ => _ end] => destruct call as [[v|msg]|e] end;
    cbn; auto.
Qed.

(** C9 at a connected store whose canister answers Err: settleQuote returns
    null, reports the message and caches nothing. *)
Lemma submit_outcomes_witness :
  returned (submit healthy_canister (SubmitSettleQuote "q-1" "proof") connected) = None
  /\ error (store (submit healthy_canister (SubmitSettleQuote "q-1" "proof") connected))
     = Some "Quote not found"
  /\ collections (store (submit healthy_canister (SubmitSettleQuote "q-1" "proof") connected))
     = collections connected.
Proof.
  apply (submit_outcomes healthy_canister (SubmitSettleQuote "q-1" "proof") connected).
  vm_compute. discriminate.
Defined.

End StoreSubmissions.

Section StoreRetries.
Import CanisterStore.

(** C9, as stated, fails when the call throws: [error] is not the message of
    the thrown error but a longer text that starts with the action's prefix. *)
Lemma thrown_message_is_prefixed :
  error (store (submit rejecting_canister
                  (SubmitRequestQuote 1 "0x742d35Cc6634C0532925a3b844Bc9e7595f03Ab0"
                     "Base Sepolia") connected))
  = Some "Failed to request quote: Error: boom"
  /\ ~ error_is_the_message.
Proof.
  split; [vm_compute; reflexivity|].
  intros H.
  specialize (H rejecting_canister
                (SubmitRequestQuote 1 "0x742d35Cc6634C0532925a3b844Bc9e7595f03Ab0"
                   "Base Sepolia") connected "boom").
  assert (actor connected <> None) as Ha by (vm_compute; discriminate).
  specialize (H Ha eq_refl). vm_compute in H. discriminate H.
Qed.

(** ** Retries *)







(** What [run] records is what [perform] did, each action starting from the
    store its predecessor left. *)
Lemma run_entries (l : list Action) (s : Store) :
  Forall (fun e => wrote e = snd (perform (action e) (before e))) (snd (run l s)).
Proof.
  revert s. induction l as [|a l IH]; intros s; cbn [run]; [constructor|].
  destruct (perform a s) as [s1 out] eqn:Hp.
  specialize (IH s1). destruct (run l s1) as [s2 t]. cbn [snd] in *.
  constructor; [cbn; now rewrite Hp|exact IH].
Qed.








End StoreRetries.


(** * The engine *)

Section Reserve.
Import Engine.















End Reserve.


Section Settlements.
Import Engine.

Lemma has_live_settlement_true (qid : N) (st : State) :
  has_live_settlement qid st = true
  <-> exists (i : N) (s : Settlement.t),
        settlements st !! i = Some s /\ Settlement.quote_id s = qid
        /\ Settlement.live s = true.
Proof.
  unfold has_live_settlement. rewrite existsb_exists. split.
  - intros (s & Hin & Hs). apply list_elem_of_In in Hin.
    apply list_elem_of_fmap in Hin as ([i s'] & -> & Hin).
    apply elem_of_map_to_list in Hin. apply andb_true_iff in Hs as [Hq Hl].
    apply N.eqb_eq in Hq. exists i, s'. auto.
  - intros (i & s & Hi & Hq & Hl). exists s. split.
    + apply list_elem_of_In, list_elem_of_fmap. exists (i, s). split; [reflexivity|].
      apply elem_of_map_to_list, Hi.
    + apply andb_true_iff. split; [apply N.eqb_eq, Hq|exact Hl].
Qed.

Lemma has_live_settlement_false (qid : N) (st : State) :
  has_live_settlement qid st = false ->
  forall (i : N) (s : Settlement.t),
    settlements st !! i = Some s -> Settlement.quote_id s = qid ->
    Settlement.live s = false.
Proof.
  intros H i s Hi Hq. destruct (Settlement.live s) eqn:Hl; [|reflexivity].
  assert (has_live_settlement qid st = true) as Ht
    by (apply has_live_settlement_true; eauto).
  congruence.
Qed.

(** The two invariants read the quotes and the settlements only. *)
Lemma unique_live_update (st st' : State) (sid : N) (s s' : Settlement.t) :
  settlements st !! sid = Some s ->
  settlements st' = <[sid := s']> (settlements st) ->
  Settlement.quote_id s' = Settlement.quote_id s ->
  (Settlement.live s' = true -> Settlement.live s = true) ->
  unique_live st -> unique_live st'.
Proof.
  intros Hs Hm Hq Hl U i j si sj Hi Hj Hqq Hli Hlj. rewrite Hm in Hi, Hj.
  destruct (decide (sid = i)) as [<-|Hni], (decide (sid = j)) as [<-|Hnj];
    [reflexivity| | |].
  - rewrite lookup_insert_eq in Hi. rewrite lookup_insert_ne in Hj by done.
    simplify_eq. apply (U sid j s sj); auto; congruence.
  - rewrite lookup_insert_eq in Hj. rewrite lookup_insert_ne in Hi by done.
    simplify_eq. apply (U i sid si s); auto; congruence.
  - rewrite lookup_insert_ne in Hi, Hj by done. eapply U; eauto.
Qed.

Lemma unique_live_new (st st' : State) (k : N) (s : Settlement.t) :
  settlements st' = <[k := s]> (settlements st) ->
  has_live_settlement (Settlement.quote_id s) st = false ->
  unique_live st -> unique_live st'.
Proof.
  intros Hm Hnone U i j si sj Hi Hj Hqq Hli Hlj. rewrite Hm in Hi, Hj.
  pose proof (has_live_settlement_false _ _ Hnone) as Hdead.
  destruct (decide (k = i)) as [<-|Hni], (decide (k = j)) as [<-|Hnj];
    [reflexivity| | |].
  - rewrite lookup_insert_eq in Hi. rewrite lookup_insert_ne in Hj by done.
    simplify_eq. rewrite (Hdead j sj Hj) in Hlj by congruence. discriminate.
  - rewrite lookup_insert_eq in Hj. rewrite lookup_insert_ne in Hi by done.
    simplify_eq. rewrite (Hdead i si Hi) in Hli by congruence. discriminate.
  - rewrite lookup_insert_ne in Hi, Hj by done. eapply U; eauto.
Qed.

Lemma unique_live_same (st st' : State) :
  settlements st' = settlements st -> unique_live st -> unique_live st'.
Proof. intros Hm U i j si sj Hi Hj. rewrite Hm in Hi, Hj. eapply U; eauto. Qed.

Lemma references_kept (st st' : State) :
  (forall i s', settlements st' !! i = Some s' ->
     (exists s, settlements st !! i = Some s
                /\ Settlement.quote_id s' = Settlement.quote_id s)
     \/ is_Some (quotes st !! Settlement.quote_id s')) ->
  (forall qid, is_Some (quotes st !! qid) -> is_Some (quotes st' !! qid)) ->
  settlements_reference_quotes st -> settlements_reference_quotes st'.
Proof.
  intros Hs Hq R i s' Hi. apply Hq.
  destruct (Hs i s' Hi) as [(s & Hl & Heq)|Hsome]; [|exact Hsome].
  rewrite Heq. eapply R, Hl.
Qed.


Lemma ok_same (st st' : State) :
  settlements st' = settlements st ->
  (forall qid, is_Some (quotes st !! qid) -> is_Some (quotes st' !! qid)) ->
  settlements_ok st -> settlements_ok st'.
Proof.
  intros Hm Hq [U R]. split; [eapply unique_live_same; eauto|].
  eapply (references_kept st); [|exact Hq|exact R].
  intros i s' Hi. rewrite Hm in Hi. left. eauto.
Qed.

Lemma ok_with_reserve (r : Reserve) (st : State) :
  settlements_ok st -> settlements_ok (with_reserve r st).
Proof. apply ok_same; [reflexivity|auto]. Qed.

Lemma ok_with_quote (qid : N) (q : Quote.t) (st : State) :
  settlements_ok st -> settlements_ok (with_quote qid q st).
Proof.
  apply ok_same; [reflexivity|]. intros x Hx. cbn [quotes with_quote].
  destruct (decide (qid = x)) as [->|Hne];
    [rewrite lookup_insert_eq; eauto|rewrite lookup_insert_ne by done; exact Hx].
Qed.

Lemma ok_update (sid : N) (s s' : Settlement.t) (st : State) :
  settlements st !! sid = Some s ->
  Settlement.quote_id s' = Settlement.quote_id s ->
  (Settlement.live s' = true -> Settlement.live s = true) ->
  settlements_ok st -> settlements_ok (with_settlement sid s' st).
Proof.
  intros Hs Hq Hl [U R]. split.
  - eapply unique_live_update; eauto.
  - eapply (references_kept st); [|intros qid H; exact H|exact R].
    intros i x Hi. cbn [settlements with_settlement] in Hi. left.
    destruct (decide (sid = i)) as [<-|Hne].
    + rewrite lookup_insert_eq in Hi. simplify_eq. eauto.
    + rewrite lookup_insert_ne in Hi by done. eauto.
Qed.

Lemma ok_expire (now qid : N) (q : Quote.t) (st : State) :
  settlements_ok st -> settlements_ok (expire now qid q st).
Proof. intros H. apply ok_with_reserve, ok_with_quote, H. Qed.

Lemma ok_check_expiry (now qid : N) (st : State) :
  settlements_ok st -> settlements_ok (check_expiry now qid st).
Proof.
  intros H. unfold check_expiry. destruct (quotes st !! qid) as [q|]; [|exact H].
  destruct (Quote.status q); try exact H.
  destruct (_ <? _); [apply ok_expire, H|exact H].
Qed.

Lemma sweep_keeps (P : State -> Prop) (now : N) (st : State) :
  (forall qid st0, P st0 -> P (check_expiry now qid st0)) -> P st -> P (sweep now st).
Proof.
  intros Hstep H. unfold sweep.
  induction ((map_to_list (quotes st)).*1) as [|qid l IH]; cbn [foldr];
    [exact H|apply Hstep, IH].
Qed.

Lemma ok_fail_settlement (now sid : N) (s : Settlement.t) (e : Error) (st : State) :
  settlements st !! sid = Some s ->
  settlements_ok st -> settlements_ok (fail_settlement now sid s e st).
Proof.
  intros Hs H. unfold fail_settlement.
  assert (settlements_ok
            (with_settlement sid
               (Settlement.with_last_error e
                  (Settlement.with_status SettlementStatus.Failed s)) st)) as H1.
  { eapply ok_update; eauto. cbn. discriminate. }
  destruct (quotes st !! _); [apply ok_with_reserve, ok_with_quote, H1|exact H1].
Qed.

Lemma ok_settle_quote (now : N) (caller : Principal) (qid : N) (proof : string)
    (st : State) :
  settlements_ok st -> settlements_ok (fst (settle_quote now caller qid proof st)).
Proof.
  intros H. unfold settle_quote. destruct (quotes st !! qid) as [q|] eqn:Hq; [|exact H].
  destruct (has_live_settlement qid st) eqn:Hlive; [exact H|].
  destruct (Quote.status q); try exact H.
  destruct (_ <? _); [apply ok_expire, H|]. cbn [fst]. destruct H as [U R]. split.
  - eapply unique_live_new; [reflexivity|exact Hlive|exact U].
  - eapply (references_kept st); [|intros x Hx; exact Hx|exact R].
    intros i x Hi. cbn [settlements] in Hi.
    destruct (decide (next_settlement_id st = i)) as [<-|Hne].
    + rewrite lookup_insert_eq in Hi. simplify_eq. right. cbn. rewrite Hq. eauto.
    + rewrite lookup_insert_ne in Hi by done. left. eauto.
Qed.

Lemma ok_request_quote (env : QuoteEnv) (now : N) (user : Principal) (amount : N)
    (address chain : string) (st : State) :
  settlements_ok st ->
  settlements_ok (fst (request_quote env now user amount address chain st)).
Proof.
  intros H. unfold request_quote.
  repeat match goal with
         | |- context [if ?b then _ else _] => destruct b; [exact H|]
         end.
  destruct (gas_answer env) as [g|e]; [|exact H].
  destruct (price_answer env _) as [p|e]; [|exact H].
  destruct (lock now _ (reserve st)) as [r|k]; [|exact H].
  cbn [fst]. revert H. apply ok_same; [reflexivity|]. intros x Hx. cbn [quotes].
  destruct (decide (next_quote_id st = x)) as [->|Hne];
    [rewrite lookup_insert_eq; eauto|rewrite lookup_insert_ne by done; exact Hx].
Qed.

Lemma ok_step (now : N) (op : Op) (st : State) :
  settlements_ok st -> settlements_ok (fst (step now op st)).
Proof.
  intros H. destruct op; cbn [step fst].
  - apply ok_request_quote, H.
  - apply ok_check_expiry, H.
  - apply sweep_keeps; [intros; now apply ok_check_expiry|exact H].
  - apply ok_settle_quote, H.
  - unfold bridge_assets. destruct (settlement_of_proof _ st); [exact H|].
    pose proof (ok_request_quote env now caller amount_out destination_address
                  destination_chain st H) as H1.
    destruct (request_quote _ _ _ _ _ _ st) as [st1 [q|s| |e]]; cbn [fst] in *;
      try exact H1.
    apply ok_settle_quote, H1.
  - unfold payment_checked. destruct (settlements st !! sid) as [s|] eqn:Hs; [|exact H].
    destruct (Settlement.status s) eqn:E, verdict; try exact H; cbn [fst];
      (eapply ok_update; [exact Hs|reflexivity| |exact H]);
      unfold Settlement.live; cbn; rewrite ?E; auto.
  - unfold sent. destruct (settlements st !! sid) as [s|] eqn:Hs; [|exact H].
    destruct (Settlement.status s) eqn:E; try exact H; cbn [fst].
    eapply ok_update; [exact Hs|reflexivity| |exact H].
    unfold Settlement.live; cbn; rewrite ?E; auto.
  - unfold send_failed. destruct (settlements st !! sid) as [s|] eqn:Hs; [|exact H].
    destruct (Settlement.status s) eqn:E; try exact H.
    destruct (_ && _); cbn [fst]; [|apply ok_fail_settlement; assumption].
    eapply ok_update; [exact Hs|reflexivity| |exact H].
    unfold Settlement.live; cbn; rewrite ?E; auto.
  - unfold receipt_observed. destruct (settlements st !! sid) as [s|] eqn:Hs; [|exact H].
    destruct (Settlement.status s) eqn:E; try exact H.
    destruct (Settlement.transaction_hash s); [|exact H].
    destruct receipt; cbn [fst]; try (apply ok_fail_settlement; assumption).
    assert (settlements_ok
              (with_reserve
                 (commit now (Settlement.amount s + gas_used * effective_gas_price)
                    (reserve st))
                 (with_settlement sid
                    (Settlement.with_gas_used gas_used
                       (Settlement.with_status SettlementStatus.Completed s)) st)))
      as H1.
    { apply ok_with_reserve. eapply ok_update; [exact Hs|reflexivity| |exact H].
      unfold Settlement.live; cbn; rewrite ?E; auto. }
    destruct (quotes st !! _); [apply ok_with_quote, H1|exact H1].
  - unfold admin. destruct (is_admin caller st); [|exact H].
    destruct op; cbn [fst]; revert H; apply ok_same; try reflexivity; auto.
Qed.

Lemma ok_run (ops : list (N * Op)) (st : State) :
  settlements_ok st -> settlements_ok (run ops st).
Proof.
  revert st. induction ops as [|[now op] ops IH]; intros st H; cbn [run];
    [exact H|apply IH, ok_step, H].
Qed.

Lemma ok_init (a : Principal) (cfg : BridgeConfig) (w c l : N) :
  settlements_ok (init a cfg w c l).
Proof.
  split.
  - intros i j si sj Hi. cbn in Hi. rewrite lookup_empty in Hi. discriminate.
  - intros i s Hi. cbn in Hi. rewrite lookup_empty in Hi. discriminate.
Qed.

End Settlements.


Section OnePerQuote.
Import Engine.

Lemma filter_nil_of_all_false {A : Type} (P : A -> bool) (l : list A) :
  (forall x, In x l -> P x = false) -> List.filter P l = [].
Proof.
  induction l as [|a l IH]; intros H; cbn [List.filter]; [reflexivity|].
  rewrite (H a) by now left. apply IH. intros x Hx. apply H. now right.
Qed.

Lemma filter_at_most_one {A : Type} (P : A -> bool) (l : list (N * A)) :
  NoDup l.*1 ->
  (forall i j x y, In (i, x) l -> In (j, y) l -> P x = true -> P y = true -> i = j) ->
  (length (List.filter P l.*2) <= 1)%nat.
Proof.
  induction l as [|[k v] l IH]; intros Hnd Hu; cbn; [lia|].
  cbn in Hnd. apply NoDup_cons in Hnd as [Hk Hnd].
  destruct (P v) eqn:E.
  - rewrite filter_nil_of_all_false; [cbn; lia|].
    intros y Hy. destruct (P y) eqn:Ey; [|reflexivity]. exfalso.
    apply in_map_iff in Hy as ([j y'] & Hy' & Hin). cbn in Hy'. subst y'.
    assert (k = j) as <- by (eapply (Hu k j v y); [now left|now right|exact E|exact Ey]).
    apply Hk. apply list_elem_of_fmap. exists (k, y). split; [reflexivity|].
    apply list_elem_of_In, Hin.
  - apply IH; [exact Hnd|]. intros i j x y Hi Hj. apply Hu; now right.
Qed.

Lemma unique_live_at_most_one (st : State) :
  unique_live st -> one_live_settlement_per_quote st.
Proof.
  intros U qid. unfold live_settlements.
  apply (filter_at_most_one
           (fun s => (Settlement.quote_id s =? qid) && Settlement.live s)).
  - apply NoDup_fst_map_to_list.
  - intros i j x y Hi Hj Hx Hy.
    apply list_elem_of_In, elem_of_map_to_list in Hi, Hj.
    apply andb_true_iff in Hx as [Hqx Hlx], Hy as [Hqy Hly].
    apply N.eqb_eq in Hqx, Hqy. eapply U; eauto. congruence.
Qed.

Lemma settle_quote_already_settled (now : N) (caller : Principal) (qid : N)
    (proof : string) (st : State) :
  settlements_ok st ->
  has_live_settlement qid st = true ->
  settle_quote now caller qid proof st = (st, Failure (QuoteError AlreadySettled)).
Proof.
  intros [_ R] Hlive. unfold settle_quote.
  pose proof Hlive as Hl. apply has_live_settlement_true in Hl as (i & s & Hi & Hq & _).
  destruct (R i s Hi) as [q Hsome]. rewrite Hq in Hsome. rewrite Hsome, Hlive.
  reflexivity.
Qed.

(** C4: in every state the engine reaches, at most one settlement that has not
    failed references each quote; a settlement attempt for a quote that has
    one is refused as AlreadySettled and changes nothing; and the declared
    [get_settlement_by_quote] replies with an optional Settlement, at most one
    record. *)
Theorem one_settlement_per_quote (bootstrap_admin : Principal) (cfg : BridgeConfig)
    (warning critical limit : N) (ops : list (N * Op)) :
  let st := run ops (init bootstrap_admin cfg warning critical limit) in
  one_live_settlement_per_quote st
  /\ unique_live st
  /\ (forall (now : N) (caller : Principal) (qid : N) (proof : string),
        has_live_settlement qid st = true ->
        settle_quote now caller qid proof st
        = (st, Failure (QuoteError AlreadySettled)))
  /\ IDL.assoc "get_settlement_by_quote" ServiceDid.idlFactory
     = Some (IDL.Func [IDL.Text] [IDL.Opt ServiceDid.Settlement] []).
Proof.
  intros st.
  assert (settlements_ok st) as Hok by (apply ok_run, ok_init).
  split; [apply unique_live_at_most_one, Hok|]. split; [apply Hok|].
  split; [|reflexivity].
  intros now caller qid proof. apply settle_quote_already_settled, Hok.
Qed.

(** The run of the scenario: quote 0 is being settled, and a second attempt
    with another proof is refused. *)
Example second_settlement_refused :
  has_live_settlement 0 scenario_state = true
  /\ snd (settle_quote 320 "bob" 0 "proof-2" scenario_state)
     = Failure (QuoteError AlreadySettled)
  /\ length (live_settlements 0 scenario_state) = 1%nat.
Proof. vm_compute. auto. Qed.

End OnePerQuote.


Section QuoteTimes.
Import Engine.

Lemma no_quote_issued_refl (st : State) : no_quote_issued st st.
Proof. split; [|reflexivity]. intros qid q Hq. eauto. Qed.

Lemma no_quote_issued_trans (st1 st2 st3 : State) :
  no_quote_issued st1 st2 -> no_quote_issued st2 st3 -> no_quote_issued st1 st3.
Proof.
  intros [K1 N1] [K2 N2]. split; [|congruence].
  intros qid q3 H3. destruct (K2 qid q3 H3) as (q2 & H2 & Hc & He).
  destruct (K1 qid q2 H2) as (q1 & H1 & Hc1 & He1).
  exists q1. repeat split; [exact H1|congruence|congruence].
Qed.

Lemma no_quote_issued_same (st st' : State) :
  quotes st' = quotes st -> next_quote_id st' = next_quote_id st ->
  no_quote_issued st st'.
Proof.
  intros Hq Hn. split; [|exact Hn]. intros qid q H. rewrite Hq in H. eauto.
Qed.

Lemma no_quote_issued_status (st st' : State) (qid : N) (q : Quote.t)
    (x : QuoteStatus.t) :
  quotes st !! qid = Some q ->
  quotes st' = <[qid := Quote.with_status x q]> (quotes st) ->
  next_quote_id st' = next_quote_id st ->
  no_quote_issued st st'.
Proof.
  intros Hq Hm Hn. split; [|exact Hn]. intros k q' H. rewrite Hm in H.
  destruct (decide (qid = k)) as [<-|Hne].
  - rewrite lookup_insert_eq in H. simplify_eq. exists q. auto.
  - rewrite lookup_insert_ne in H by done. eauto.
Qed.

Lemma check_expiry_issues_none (now qid : N) (st : State) :
  no_quote_issued st (check_expiry now qid st).
Proof.
  unfold check_expiry. destruct (quotes st !! qid) as [q|] eqn:Hq;
    [|apply no_quote_issued_refl].
  destruct (Quote.status q); try apply no_quote_issued_refl.
  destruct (_ <? _); [|apply no_quote_issued_refl].
  eapply no_quote_issued_status; [exact Hq|reflexivity|reflexivity].
Qed.

Lemma sweep_issues_none (now : N) (st : State) : no_quote_issued st (sweep now st).
Proof.
  apply (sweep_keeps (no_quote_issued st)); [|apply no_quote_issued_refl].
  intros qid st0 H. eapply no_quote_issued_trans; [exact H|].
  apply check_expiry_issues_none.
Qed.

Lemma settle_quote_issues_none (now : N) (caller : Principal) (qid : N)
    (proof : string) (st : State) :
  no_quote_issued st (fst (settle_quote now caller qid proof st)).
Proof.
  unfold settle_quote. destruct (quotes st !! qid) as [q|] eqn:Hq;
    [|apply no_quote_issued_refl].
  destruct (has_live_settlement qid st); [apply no_quote_issued_refl|].
  destruct (Quote.status q); try apply no_quote_issued_refl.
  destruct (_ <? _); cbn [fst].
  - eapply no_quote_issued_status; [exact Hq|reflexivity|reflexivity].
  - apply no_quote_issued_same; reflexivity.
Qed.

Lemma fail_settlement_issues_none (now sid : N) (s : Settlement.t) (e : Error)
    (st : State) :
  no_quote_issued st (fail_settlement now sid s e st).
Proof.
  unfold fail_settlement. destruct (quotes st !! _) as [q|] eqn:Hq.
  - eapply no_quote_issued_status; [exact Hq|reflexivity|reflexivity].
  - apply no_quote_issued_same; reflexivity.
Qed.

(** What [request_quote] does to the quotes: nothing, or one new quote under
    the next id. *)
Lemma request_quote_quotes (env : QuoteEnv) (now : N) (user : Principal)
    (amount : N) (address chain : string) (st : State) :
  let r := request_quote env now user amount address chain st in
  (fst r = st /\ forall q, snd r <> Quoted q)
  \/ exists q : Quote.t,
       snd r = Quoted q
       /\ quotes (fst r) = <[next_quote_id st := q]> (quotes st)
       /\ next_quote_id (fst r) = next_quote_id st + 1
       /\ config (fst r) = config st
       /\ settlements (fst r) = settlements st
       /\ Quote.id q = next_quote_id st
       /\ Quote.created_at q = now
       /\ Quote.expires_at q
          = Quote.created_at q + 60 * quote_validity_minutes (config st).
Proof.
  unfold request_quote.
  repeat match goal with
         | |- context [if ?b then _ else _] =>
             destruct b; [left; split; [reflexivity|discriminate]|]
         end.
  destruct (gas_answer env) as [g|e]; [|left; split; [reflexivity|discriminate]].
  destruct (price_answer env _) as [p|e]; [|left; split; [reflexivity|discriminate]].
  destruct (lock now _ (reserve st)) as [r|k];
    [|left; split; [reflexivity|discriminate]].
  right. eexists. repeat split.
Qed.

Lemma quote_times_of_none_issued (now : N) (st st' : State) :
  no_quote_issued st st' -> quote_times now st st'.
Proof.
  intros [K _] qid q' H. destruct (K qid q' H) as (q & Hq & Hc & He).
  rewrite Hq. auto.
Qed.

Lemma quote_times_then (now : N) (st st1 st2 : State) :
  quote_times now st st1 -> no_quote_issued st1 st2 -> quote_times now st st2.
Proof.
  intros T [K _] qid q2 H2. destruct (K qid q2 H2) as (q1 & H1 & Hc & He).
  specialize (T qid q1 H1). destruct (quotes st !! qid); rewrite Hc, He; exact T.
Qed.

Lemma request_quote_times (env : QuoteEnv) (now : N) (user : Principal)
    (amount : N) (address chain : string) (st : State) :
  quote_ids_fresh st ->
  quote_times now st (fst (request_quote env now user amount address chain st)).
Proof.
  intros F.
  destruct (request_quote_quotes env now user amount address chain st)
    as [[-> _]|(q & _ & Hm & _ & _ & _ & _ & Hc & He)].
  - apply quote_times_of_none_issued, no_quote_issued_refl.
  - intros qid q' H. rewrite Hm in H.
    destruct (decide (next_quote_id st = qid)) as [<-|Hne].
    + rewrite lookup_insert_eq in H. simplify_eq.
      destruct (quotes st !! next_quote_id st) as [q0|] eqn:E; [|auto].
      apply F in E. lia.
    + rewrite lookup_insert_ne in H by done. rewrite H. auto.
Qed.

Lemma step_issues (now : N) (op : Op) (st : State) :
  match op with
  | RequestQuote _ _ _ _ _ | BridgeAssets _ _ _ _ _ _ => True
  | _ => no_quote_issued st (fst (step now op st))
  end.
Proof.
  destruct op; try exact I; cbn [step fst].
  - apply check_expiry_issues_none.
  - apply sweep_issues_none.
  - apply settle_quote_issues_none.
  - unfold payment_checked. destruct (settlements st !! sid) as [s|];
      [|apply no_quote_issued_refl].
    destruct (Settlement.status s), verdict; cbn [fst];
      apply no_quote_issued_same; reflexivity.
  - unfold sent. destruct (settlements st !! sid) as [s|];
      [|apply no_quote_issued_refl].
    destruct (Settlement.status s); cbn [fst]; apply no_quote_issued_same; reflexivity.
  - unfold send_failed. destruct (settlements st !! sid) as [s|];
      [|apply no_quote_issued_refl].
    destruct (Settlement.status s); try apply no_quote_issued_refl.
    destruct (_ && _); cbn [fst];
      [apply no_quote_issued_same; reflexivity|apply fail_settlement_issues_none].
  - unfold receipt_observed. destruct (settlements st !! sid) as [s|];
      [|apply no_quote_issued_refl].
    destruct (Settlement.status s); try apply no_quote_issued_refl.
    destruct (Settlement.transaction_hash s); [|apply no_quote_issued_refl].
    destruct receipt; cbn [fst]; try apply fail_settlement_issues_none.
    destruct (quotes st !! _) as [q|] eqn:Hq.
    + eapply no_quote_issued_status; [exact Hq|reflexivity|reflexivity].
    + apply no_quote_issued_same; reflexivity.
  - unfold admin. destruct (is_admin caller st); [|apply no_quote_issued_refl].
    destruct op; cbn [fst]; apply no_quote_issued_same; reflexivity.
Qed.

Lemma fresh_of_none_issued (st st' : State) :
  no_quote_issued st st' -> quote_ids_fresh st -> quote_ids_fresh st'.
Proof.
  intros [K Hn] F qid q' H. destruct (K qid q' H) as (q & Hq & _).
  rewrite Hn. eapply F, Hq.
Qed.

Lemma request_quote_fresh (env : QuoteEnv) (now : N) (user : Principal)
    (amount : N) (address chain : string) (st : State) :
  quote_ids_fresh st ->
  quote_ids_fresh (fst (request_quote env now user amount address chain st)).
Proof.
  intros F.
  destruct (request_quote_quotes env now user amount address chain st)
    as [[-> _]|(q & _ & Hm & Hn & _)]; [exact F|].
  intros qid q' H. rewrite Hm in H. rewrite Hn.
  destruct (decide (next_quote_id st = qid)) as [<-|Hne]; [lia|].
  rewrite lookup_insert_ne in H by done. apply F in H. lia.
Qed.

Lemma step_fresh (now : N) (op : Op) (st : State) :
  quote_ids_fresh st -> quote_ids_fresh (fst (step now op st)).
Proof.
  intros F. pose proof (step_issues now op st) as H.
  destruct op; try (eapply fresh_of_none_issued; [exact H|exact F]); cbn [step].
  - apply request_quote_fresh, F.
  - unfold bridge_assets. destruct (settlement_of_proof _ st); [exact F|].
    pose proof (request_quote_fresh env now caller amount_out destination_address
                  destination_chain st F) as F1.
    destruct (request_quote _ _ _ _ _ _ st) as [st1 [q|s| |e]]; cbn [fst] in *;
      try exact F1.
    eapply fresh_of_none_issued; [apply settle_quote_issues_none|exact F1].
Qed.

Lemma run_fresh (ops : list (N * Op)) (st : State) :
  quote_ids_fresh st -> quote_ids_fresh (run ops st).
Proof.
  revert st. induction ops as [|[now op] ops IH]; intros st F; cbn [run];
    [exact F|apply IH, step_fresh, F].
Qed.

Lemma step_quote_times (now : N) (op : Op) (st : State) :
  quote_ids_fresh st -> quote_times now st (fst (step now op st)).
Proof.
  intros F. pose proof (step_issues now op st) as H.
  destruct op; try (apply quote_times_of_none_issued, H); cbn [step].
  - apply request_quote_times, F.
  - unfold bridge_assets.
    destruct (settlement_of_proof _ st);
      [apply quote_times_of_none_issued, no_quote_issued_refl|].
    pose proof (request_quote_times env now caller amount_out destination_address
                  destination_chain st F) as T.
    destruct (request_quote _ _ _ _ _ _ st) as [st1 [q|s| |e]]; cbn [fst] in *;
      try exact T.
    eapply quote_times_then; [exact T|apply settle_quote_issues_none].
Qed.

(** C6: from every state the engine reaches, a step leaves each stored quote
    its times and gives a new quote [created_at = now] and
    [expires_at = created_at + 60 * quote_validity_minutes] seconds; a quote
    that [request_quote] returns has these times; and the default validity of
    15 minutes is 900 seconds. *)
Theorem quote_expiry_window (bootstrap_admin : Principal) (cfg : BridgeConfig)
    (warning critical limit : N) (ops : list (N * Op)) (now : N) (op : Op) :
  let st := run ops (init bootstrap_admin cfg warning critical limit) in
  quote_times now st (fst (step now op st))
  /\ (forall (env : QuoteEnv) (user : Principal) (amount : N)
             (address chain : string),
        match snd (request_quote env now user amount address chain st) with
        | Quoted q =>
            Quote.created_at q = now
            /\ Quote.expires_at q
               = Quote.created_at q + 60 * quote_validity_minutes (config st)
        | _ => True
        end)
  /\ (forall (min_amount max_amount gas_price_cap : N) (chains : list string),
        60 * quote_validity_minutes
               (default_config min_amount max_amount gas_price_cap chains)
        = 900).
Proof.
  intros st. split; [|split].
  - apply step_quote_times, run_fresh. intros qid q H. cbn in H.
    rewrite lookup_empty in H. discriminate.
  - intros env user amount address chain.
    destruct (request_quote_quotes env now user amount address chain st)
      as [[_ Hn]|(q & -> & _ & _ & _ & _ & _ & Hc & He)].
    + destruct (snd _) as [q| | |]; try exact I. destruct (Hn q eq_refl).
    + auto.
  - intros. reflexivity.
Qed.

(** Scenario A: a quote requested at 200 s under the default validity ends
    900 s later. *)
Example scenario_quote_expires_after_900s :
  match snd (request_quote scenario_env 200 "alice" 1000000000000000000
               scenario_address "Base Sepolia"
               (fst (step 100 (Admin "admin" (AdminAddReserveFunds 10000000000000000000))
                       (init "admin" scenario_config 1000000000000000000
                          100000000000000000 100000000000000000000)))) with
  | Quoted q => Quote.created_at q = 200 /\ Quote.expires_at q = 1100
  | _ => False
  end.
Proof. vm_compute. auto. Qed.

End QuoteTimes.

(** * The client store over whole runs *)

Section StoreInvariants.
Import CanisterStore StoreRuns.

Ltac store_cases :=
  repeat match goal with
         | |- context [match actor ?s with _ => _ end] => destruct (actor s) eqn:?
         | |- context [match ?f ?c with _ => _ end] =>
             lazymatch type of c with GaslessBridgeCanister => destruct (f c) eqn:? end
         | |- context [match ?f ?c ?x with _ => _ end] =>
             lazymatch type of c with GaslessBridgeCanister => destruct (f c x) eqn:? end
         | |- context [match ?f ?c ?x ?y with _ => _ end] =>
             lazymatch type of c with GaslessBridgeCanister => destruct (f c x y) eqn:? end
         | |- context [match ?f ?c ?x ?y ?z with _ => _ end] =>
             lazymatch type of c with GaslessBridgeCanister => destruct (f c x y z) eqn:? end
         | |- context [match ?r with Ok _ => _ | Err _ => _ end] => destruct r
         end.

Ltac unfold_actions :=
  unfold requestQuote, bridgeAssets, settleQuote, getQuote, getSettlement,
    refreshReserveStatus, clearCache, invalidateGasCache, runTests, setError,
    clearError, createIcpPayment, getSponsorshipStatus, getUserTransactions,
    getUserTransaction, getCacheStats.

(** Induction over a run, from a property that every action keeps. *)
Lemma final_invariant (P : Store -> Prop) :
  (forall a s, P s -> P (fst (perform a s))) ->
  forall l s, P s -> P (final l s).
Proof.
  intros Hstep l. unfold final.
  induction l as [|a l IH]; intros s Hs; cbn [run]; [exact Hs|].
  specialize (Hstep a s Hs). destruct (perform a s) as [s1 out]. cbn [fst] in Hstep.
  specialize (IH s1 Hstep). destruct (run l s1) as [s2 t]. exact IH.
Qed.

Lemma final_cons (a : Action) (l : list Action) (s : Store) :
  final (a :: l) s = final l (fst (perform a s)).
Proof.
  unfold final. cbn [run]. destruct (perform a s) as [s1 out]. cbn [fst].
  destruct (run l s1) as [s2 t]. reflexivity.
Qed.

(** [getCacheStats] changes nothing but [cacheStats]. *)
Lemma getCacheStats_only (c : GaslessBridgeCanister) (s : Store) :
  exists stats, store (getCacheStats c s) = set_cacheStats stats s.
Proof.
  unfold getCacheStats. store_cases; cbn; eauto;
    exists (cacheStats s); destruct s; reflexivity.
Qed.

(** The root key is fetched exactly on the local network: the second test of
    the condition, on the host, adds nothing. *)
Lemma root_key_condition (network : string) :
  String.eqb network "local" || includes (HOST network) "localhost"
  = String.eqb network "local".
Proof. unfold HOST. destruct (String.eqb network "local"); reflexivity. Qed.

(** The store [initializeCanister] leaves, by the answer of the handshake. *)
Lemma initializeCanister_store (env : InitEnv) (s : Store) :
  let a := NewHttpAgent (HOST (dfx_network env))
             (match authIdentity env with Some i => i | None => AnonymousIdentity end) in
  match handshake env with
  | Resolved status =>
      exists stats,
        store (initializeCanister env s)
        = mkStore (Some a) (Some (createActor a CANISTER_ID)) true false None
            (retryCount s) (quotes s) (settlements s) (Some status)
            (userTransactions s) (sponsorshipStatus s) stats
  | Rejected e =>
      store (initializeCanister env s)
      = mkStore (agent s) (actor s) false false
          (Some (connection_error_message e)) (retryCount s + 1) (quotes s)
          (settlements s) (reserveStatus s) (userTransactions s)
          (sponsorshipStatus s) (cacheStats s)
  end.
Proof.
  unfold initializeCanister, handshake. rewrite root_key_condition.
  match goal with |- context [match ?x with Resolved _ => _ | Rejected _ => _ end] =>
    change x with (handshake env); generalize (handshake env) end.
  intros x. destruct x as [status|e].
  - cbn [store].
    match goal with |- context [getCacheStats ?c ?s2] =>
      destruct (getCacheStats_only c s2) as [stats ->] end.
    exists stats. reflexivity.
  - reflexivity.
Qed.

Lemma initializeCanister_fields (env : InitEnv) (s : Store) :
  let s' := store (initializeCanister env s) in
  isLoading s' = false /\ quotes s' = quotes s /\ settlements s' = settlements s
  /\ userTransactions s' = userTransactions s
  /\ sponsorshipStatus s' = sponsorshipStatus s
  /\ ((isConnected s' = true /\ agent s' <> None /\ actor s' <> None
       /\ reserveStatus s' <> None)
      \/ (isConnected s' = false /\ agent s' = agent s /\ actor s' = actor s
          /\ reserveStatus s' = reserveStatus s)).
Proof.
  pose proof (initializeCanister_store env s) as H. cbv zeta in *.
  destruct (handshake env) as [status|e].
  - destruct H as [stats ->]. cbn. repeat split; try reflexivity.
    left. repeat split; discriminate.
  - rewrite H. cbn. repeat split; try reflexivity. right. repeat split; reflexivity.
Qed.

Lemma extends_refl (l : list IDL.Val) : extends l l.
Proof. exists []. now rewrite app_nil_r. Qed.

Lemma extends_snoc (l : list IDL.Val) (v : IDL.Val) : extends l (l ++ [v]).
Proof. exists [v]. reflexivity. Qed.

Lemma extends_trans (a b c : list IDL.Val) : extends a b -> extends b c -> extends a c.
Proof. intros [x ->] [y ->]. exists (x ++ y)%list. now rewrite app_assoc. Qed.

Lemma perform_extends (a : Action) (s : Store) :
  extends (quotes s) (quotes (fst (perform a s)))
  /\ extends (settlements s) (settlements (fst (perform a s))).
Proof.
  destruct a; cbn [perform fst].
  - destruct (initializeCanister_fields env s) as (_ & -> & -> & _).
    split; apply extends_refl.
  - unfold retryConnection. destruct (retryCount s <? 3); cbn [store].
    + destruct (initializeCanister_fields env s) as (_ & -> & -> & _).
      split; apply extends_refl.
    + cbn. split; apply extends_refl.
  - unfold_actions; store_cases; cbn; split;
      first [apply extends_refl | apply extends_snoc].
  - unfold_actions; store_cases; cbn; split;
      first [apply extends_refl | apply extends_snoc].
  - unfold_actions; store_cases; cbn; split;
      first [apply extends_refl | apply extends_snoc].
  - unfold_actions; store_cases; cbn; split; apply extends_refl.
  - unfold_actions; store_cases; cbn; split; apply extends_refl.
  - unfold_actions; store_cases; cbn; split; apply extends_refl.
  - unfold_actions; store_cases; cbn; split; apply extends_refl.
  - unfold clearCache. destruct (actor s); [|cbn; split; apply extends_refl].
    destruct (clear_rpc_cache c); [|cbn; split; apply extends_refl].
    destruct (getCacheStats_only c s) as [stats ->].
    split; apply extends_refl.
  - unfold_actions; store_cases; cbn; split; apply extends_refl.
  - unfold_actions; store_cases; cbn; split; apply extends_refl.
  - cbn. split; apply extends_refl.
  - cbn. split; apply extends_refl.
  - unfold_actions; store_cases; cbn; split; apply extends_refl.
  - unfold_actions; store_cases; cbn; split; apply extends_refl.
  - unfold_actions; store_cases; cbn; split; apply extends_refl.
  - unfold_actions; store_cases; cbn; split; apply extends_refl.
Qed.

(** X1: the cached quotes and settlements only grow at the end: whatever
    actions run and whatever the canister answers, the store keeps every quote
    and settlement it held, in their order, before the ones added since. *)
Theorem caches_append_only (l : list Action) (s : Store) :
  extends (quotes s) (quotes (final l s))
  /\ extends (settlements s) (settlements (final l s)).
Proof.
  revert s. induction l as [|a l IH]; intros s.
  - unfold final. cbn. split; apply extends_refl.
  - rewrite final_cons. destruct (perform_extends a s) as [H1 H2].
    destruct (IH (fst (perform a s))) as [H3 H4].
    split; eapply extends_trans; eassumption.
Qed.

Lemma perform_isLoading (a : Action) (s : Store) :
  isLoading s = false -> isLoading (fst (perform a s)) = false.
Proof.
  intros Hs. destruct a; cbn [perform fst].
  - now destruct (initializeCanister_fields env s) as (-> & _).
  - unfold retryConnection. destruct (retryCount s <? 3); cbn [store].
    + now destruct (initializeCanister_fields env s) as (-> & _).
    + reflexivity.
  - unfold_actions; store_cases; cbn; auto.
  - unfold_actions; store_cases; cbn; auto.
  - unfold_actions; store_cases; cbn; auto.
  - unfold_actions; store_cases; cbn; auto.
  - unfold_actions; store_cases; cbn; auto.
  - unfold_actions; store_cases; cbn; auto.
  - unfold_actions; store_cases; cbn; auto.
  - unfold clearCache. destruct (actor s); [|exact Hs].
    destruct (clear_rpc_cache c); [|exact Hs].
    destruct (getCacheStats_only c s) as [stats ->]. exact Hs.
  - unfold_actions; store_cases; cbn; auto.
  - unfold_actions; store_cases; cbn; auto.
  - exact Hs.
  - exact Hs.
  - unfold_actions; store_cases; cbn; auto.
  - unfold_actions; store_cases; cbn; auto.
  - unfold_actions; store_cases; cbn; auto.
  - unfold_actions; store_cases; cbn; auto.
Qed.

(** X2: every action that sets [isLoading] clears it again on each of its
    paths (reply Ok, reply Err, thrown call, no actor): after any sequence of
    completed actions from the initial store, [isLoading] is false. *)
Theorem loading_cleared (l : list Action) :
  isLoading (final l initial) = false.
Proof. apply final_invariant; [apply perform_isLoading|reflexivity]. Qed.

Lemma perform_connection_coherent (a : Action) (s : Store) :
  connection_coherent s -> connection_coherent (fst (perform a s)).
Proof.
  unfold connection_coherent. intros Hs. destruct a; cbn [perform fst].
  - destruct (initializeCanister_fields env s)
      as (_ & _ & _ & _ & _ & [(_ & H)|(-> & _)]); [|discriminate].
    intros _. exact H.
  - unfold retryConnection. destruct (retryCount s <? 3); cbn [store].
    + destruct (initializeCanister_fields env s)
        as (_ & _ & _ & _ & _ & [(_ & H)|(-> & _)]); [|discriminate].
      intros _. exact H.
    + exact Hs.
  - unfold_actions; store_cases; cbn; try (intros H; destruct (Hs H) as (? & ? & ?)); repeat split; congruence.
  - unfold_actions; store_cases; cbn; try (intros H; destruct (Hs H) as (? & ? & ?)); repeat split; congruence.
  - unfold_actions; store_cases; cbn; try (intros H; destruct (Hs H) as (? & ? & ?)); repeat split; congruence.
  - unfold_actions; store_cases; cbn; try (intros H; destruct (Hs H) as (? & ? & ?)); repeat split; congruence.
  - unfold_actions; store_cases; cbn; try (intros H; destruct (Hs H) as (? & ? & ?)); repeat split; congruence.
  - unfold_actions; store_cases; cbn; try (intros H; destruct (Hs H) as (? & ? & ?)); repeat split; congruence.
  - unfold_actions; store_cases; cbn; try (intros H; destruct (Hs H) as (? & ? & ?)); repeat split; congruence.
  - unfold clearCache. destruct (actor s) eqn:Ha;
      [destruct (clear_rpc_cache c);
       [destruct (getCacheStats_only c s) as [stats ->]|]|];
      cbn; intros H; destruct (Hs H) as (? & ? & ?); repeat split; congruence.
  - unfold_actions; store_cases; cbn; try (intros H; destruct (Hs H) as (? & ? & ?)); repeat split; congruence.
  - unfold_actions; store_cases; cbn; try (intros H; destruct (Hs H) as (? & ? & ?)); repeat split; congruence.
  - exact Hs.
  - exact Hs.
  - unfold_actions; store_cases; cbn; try (intros H; destruct (Hs H) as (? & ? & ?)); repeat split; congruence.
  - unfold_actions; store_cases; cbn; try (intros H; destruct (Hs H) as (? & ? & ?)); repeat split; congruence.
  - unfold_actions; store_cases; cbn; try (intros H; destruct (Hs H) as (? & ? & ?)); repeat split; congruence.
  - unfold_actions; store_cases; cbn; try (intros H; destruct (Hs H) as (? & ? & ?)); repeat split; congruence.
Qed.

(** X3: in every run from the initial store, a store that says it is connected
    holds an agent, an actor and a reserve status. *)
Theorem connected_has_actor (l : list Action) :
  connection_coherent (final l initial).
Proof.
  apply final_invariant; [apply perform_connection_coherent|].
  unfold connection_coherent. cbn. discriminate.
Qed.

Lemma perform_actor_kept (a : Action) (s : Store) :
  actor s <> None -> actor (fst (perform a s)) <> None.
Proof.
  intros Hs. destruct a; cbn [perform fst].
  - destruct (initializeCanister_fields env s)
      as (_ & _ & _ & _ & _ & [(_ & _ & H & _)|(_ & _ & -> & _)]);
      [exact H|exact Hs].
  - unfold retryConnection. destruct (retryCount s <? 3); cbn [store].
    + destruct (initializeCanister_fields env s)
        as (_ & _ & _ & _ & _ & [(_ & _ & H & _)|(_ & _ & -> & _)]);
        [exact H|exact Hs].
    + exact Hs.
  - unfold_actions; store_cases; cbn; congruence.
  - unfold_actions; store_cases; cbn; congruence.
  - unfold_actions; store_cases; cbn; congruence.
  - unfold_actions; store_cases; cbn; congruence.
  - unfold_actions; store_cases; cbn; congruence.
  - unfold_actions; store_cases; cbn; congruence.
  - unfold_actions; store_cases; cbn; congruence.
  - unfold clearCache. destruct (actor s) eqn:Ha; [|congruence].
    destruct (clear_rpc_cache c); [|cbn; congruence].
    destruct (getCacheStats_only c s) as [stats ->]. cbn. congruence.
  - unfold_actions; store_cases; cbn; congruence.
  - unfold_actions; store_cases; cbn; congruence.
  - exact Hs.
  - exact Hs.
  - unfold_actions; store_cases; cbn; congruence.
  - unfold_actions; store_cases; cbn; congruence.
  - unfold_actions; store_cases; cbn; congruence.
  - unfold_actions; store_cases; cbn; congruence.
Qed.

(** X4: the actor is never cleared: once a connection was made, no action
    removes the actor, not even an initialisation that fails and sets
    [isConnected] to false; so every later submission still calls the
    canister and returns what it answers with Ok. *)
Theorem actor_never_cleared (l : list Action) (s : Store) :
  actor s <> None ->
  actor (final l s) <> None
  /\ (forall c x v, actor_call c x = Resolved (Ok v) ->
      returned (submit c x (final l s)) = Some v).
Proof.
  intros Hs.
  assert (actor (final l s) <> None) as H
    by (apply (final_invariant (fun s => actor s <> None));
        [apply perform_actor_kept|exact Hs]).
  split; [exact H|]. intros c x v Hcall.
  destruct x; cbn [submit actor_call] in *;
    unfold requestQuote, bridgeAssets, settleQuote, createIcpPayment;
    destruct (actor (final l s)); try congruence; rewrite Hcall; reflexivity.
Qed.

(** The actor is kept over a run in which the connection is then lost. *)
Lemma actor_never_cleared_witness :
  actor (final [InitializeCanister unreachable_env] connected) <> None
  /\ (forall c x v, actor_call c x = Resolved (Ok v) ->
      returned (submit c x (final [InitializeCanister unreachable_env] connected))
      = Some v).
Proof.
  apply (actor_never_cleared [InitializeCanister unreachable_env] connected).
  vm_compute. discriminate.
Defined.

Lemma untouched_actor (s : Store) : untouched s -> actor s = None.
Proof.
  unfold untouched. intros H.
  change (actor s) with (actor (set_error None s)). now rewrite H.
Qed.

Lemma perform_untouched (a : Action) (s : Store) :
  is_connecting a = false -> untouched s ->
  untouched (fst (perform a s)) /\ snd (perform a s) = [].
Proof.
  intros Ha Hs. pose proof (untouched_actor s Hs) as Hactor.
  destruct a; try discriminate Ha; cbn [perform fst snd]; unfold_actions;
    rewrite ?Hactor; cbn [store console]; split; try reflexivity; exact Hs.
Qed.

(** X5: before any connection attempt no action reaches the canister or
    caches anything: in a run from the initial store without
    initializeCanister and retryConnection, every action leaves all fields
    but [error] at their initial values and writes nothing to the console,
    whatever canister it was given. *)
Theorem nothing_before_connection (l : list Action) :
  forallb (fun a => negb (is_connecting a)) l = true ->
  untouched (final l initial)
  /\ Forall (fun e => wrote e = []) (snd (run l initial)).
Proof.
  assert (forall s, untouched s ->
            forallb (fun a => negb (is_connecting a)) l = true ->
            untouched (final l s) /\ Forall (fun e => wrote e = []) (snd (run l s)))
    as H.
  { induction l as [|a l IH]; intros s Hs Hl.
    - unfold final. cbn. split; [exact Hs|constructor].
    - cbn [forallb] in Hl. apply andb_true_iff in Hl as [Ha Hl].
      apply negb_true_iff in Ha.
      destruct (perform_untouched a s Ha Hs) as [H1 H2].
      rewrite final_cons. cbn [run].
      destruct (perform a s) as [s1 out]. cbn [fst snd] in *.
      destruct (IH s1 H1 Hl) as [H3 H4]. destruct (run l s1) as [s2 t].
      cbn [snd] in *. split; [exact H3|]. constructor; [exact H2|exact H4]. }
  intros Hl. apply H; [reflexivity|exact Hl].
Qed.

(** A run of submissions and lookups on a store that never connected. *)
Lemma nothing_before_connection_witness :
  untouched (final [RequestQuote rejecting_canister 5 "0xabc" "Base Sepolia";
                    GetQuote healthy_canister "q-1"; SetError (Some "note");
                    RunTests healthy_canister] initial)
  /\ Forall (fun e => wrote e = [])
       (snd (run [RequestQuote rejecting_canister 5 "0xabc" "Base Sepolia";
                  GetQuote healthy_canister "q-1"; SetError (Some "note");
                  RunTests healthy_canister] initial)).
Proof.
  apply (nothing_before_connection
           [RequestQuote rejecting_canister 5 "0xabc" "Base Sepolia";
            GetQuote healthy_canister "q-1"; SetError (Some "note");
            RunTests healthy_canister]).
  reflexivity.
Defined.

(** X6: getQuote, getSettlement and getUserTransaction never change the
    store: what they fetch is returned and not cached, a reply Err or a
    thrown call sets no [error]; without an actor they return null and write
    nothing. *)
Theorem lookups_leave_store (c : GaslessBridgeCanister) (x : Lookup) (s : Store) :
  store (lookup_reply c x s) = s
  /\ (actor s = None ->
      returned (lookup_reply c x s) = None /\ console (lookup_reply c x s) = []).
Proof.
  destruct x; cbn [lookup_reply]; unfold_actions; destruct (actor s);
    store_cases; cbn; (split; [reflexivity|]); intros H;
    first [discriminate H | split; reflexivity].
Qed.

(** X7: the root key is fetched only on the local network: for any other
    value of DFX_NETWORK the host is https://ic0.app, the test on the host
    adds nothing, and what fetchRootKey would answer has no effect on
    initializeCanister. *)
Theorem root_key_only_local (env : InitEnv) (k : Outcome unit) (s : Store) :
  dfx_network env <> "local" ->
  initializeCanister (with_fetchRootKey k env) s = initializeCanister env s.
Proof.
  intros Hn. unfold initializeCanister, with_fetchRootKey.
  cbn [dfx_network authIdentity fetchRootKey canister].
  rewrite !root_key_condition.
  destruct (String.eqb_spec (dfx_network env) "local") as [E|_];
    [contradiction|reflexivity].
Qed.

(** On the main network a failing fetchRootKey does not matter. *)
Lemma root_key_only_local_witness :
  initializeCanister
    (with_fetchRootKey (Rejected (ThrownError "Error" "no root key")) reachable_env)
    initial
  = initializeCanister reachable_env initial.
Proof.
  apply (root_key_only_local reachable_env
           (Rejected (ThrownError "Error" "no root key")) initial).
  vm_compute. discriminate.
Defined.

(** X8: what initializeCanister leaves, by the handshake (root key on the
    local network, then get_detailed_reserve_status). If it resolves, the
    store is connected with a new agent and actor for the identity of the
    auth store (anonymous without one), the reserve status read, no error and
    [retryCount] as it was. If it is rejected, the store is not connected,
    [error] is the classified message, [retryCount] is one more, and agent,
    actor, reserve status and cache statistics stay as they were. In both
    cases [isLoading] is false and the cached quotes, settlements, user
    transactions and sponsorship status are untouched. *)
Theorem initializeCanister_outcome (env : InitEnv) (s : Store) :
  let s' := store (initializeCanister env s) in
  let a := NewHttpAgent (HOST (dfx_network env))
             (match authIdentity env with Some i => i | None => AnonymousIdentity end) in
  (isLoading s' = false /\ quotes s' = quotes s /\ settlements s' = settlements s
   /\ userTransactions s' = userTransactions s
   /\ sponsorshipStatus s' = sponsorshipStatus s)
  /\ match handshake env with
     | Resolved status =>
         isConnected s' = true /\ error s' = None /\ retryCount s' = retryCount s
         /\ agent s' = Some a /\ actor s' = Some (createActor a CANISTER_ID)
         /\ reserveStatus s' = Some status
     | Rejected e =>
         isConnected s' = false /\ error s' = Some (connection_error_message e)
         /\ retryCount s' = retryCount s + 1
         /\ agent s' = agent s /\ actor s' = actor s
         /\ reserveStatus s' = reserveStatus s /\ cacheStats s' = cacheStats s
     end.
Proof.
  pose proof (initializeCanister_store env s) as H. cbv zeta in *.
  destruct (handshake env) as [status|e].
  - destruct H as [stats ->]. cbn. repeat split; reflexivity.
  - rewrite H. cbn. repeat split; reflexivity.
Qed.

(** X9: the cache and test actions drop a reply Err: clearCache,
    invalidateGasCache, getCacheStats and runTests set [error] only when the
    call throws (runTests not even then), and runTests returns the text of
    Err like the text of Ok. *)
Theorem err_replies_dropped (c : GaslessBridgeCanister) (s : Store) (msg : string) :
  (clear_rpc_cache c = Resolved (Err msg) -> error (store (clearCache c s)) = error s)
  /\ (invalidate_gas_cache c = Resolved (Err msg) -> store (invalidateGasCache c s) = s)
  /\ (get_rpc_cache_stats c = Resolved (Err msg) -> store (getCacheStats c s) = s)
  /\ (run_comprehensive_test_suite c = Resolved (Err msg) ->
      error (store (runTests c s)) = error s
      /\ (actor s <> None -> returned (runTests c s) = Some msg)).
Proof.
  repeat split.
  - intros H. unfold clearCache. rewrite H. destruct (actor s); [|reflexivity].
    destruct (getCacheStats_only c s) as [stats ->]. reflexivity.
  - intros H. unfold invalidateGasCache. rewrite H. now destruct (actor s).
  - intros H. unfold getCacheStats. rewrite H. now destruct (actor s).
  - unfold runTests. rewrite H. now destruct (actor s).
  - unfold runTests. rewrite H. intros Ha. destruct (actor s); [reflexivity|congruence].
Qed.

(** X10: getSponsorshipStatus on a store with an actor: a reply Ok(v) is
    returned and replaces the cached sponsorship status; a reply Err(msg)
    returns null, sets [error] to msg and keeps the cached status; a thrown
    call returns null, keeps the cached status and sets [error] to
    'Failed to get sponsorship status: ' followed by the string form of the
    thrown value. In every case [isLoading] ends false and the quotes,
    settlements and user transactions are untouched. *)
Theorem sponsorship_outcomes (c : GaslessBridgeCanister) (amount : Z)
    (chain : string) (s : Store) :
  actor s <> None ->
  let r := getSponsorshipStatus c amount chain s in
  isLoading (store r) = false /\ collections (store r) = collections s
  /\ match get_sponsorship_status c amount chain with
     | Resolved (Ok v) =>
         returned r = Some v /\ sponsorshipStatus (store r) = Some v
         /\ error (store r) = None
     | Resolved (Err msg) =>
         returned r = None /\ error (store r) = Some msg
         /\ sponsorshipStatus (store r) = sponsorshipStatus s
     | Rejected e =>
         returned r = None
         /\ error (store r)
            = Some ("Failed to get sponsorship status: " ++ to_string e)
         /\ sponsorshipStatus (store r) = sponsorshipStatus s
     end.
Proof.
  intros Hactor. unfold getSponsorshipStatus.
  destruct (actor s) as [a|]; [|congruence].
  destruct (get_sponsorship_status c amount chain) as [[v|msg]|e]; cbn;
    repeat split; reflexivity.
Qed.

(** The healthy canister answers Err to a sponsorship request. *)
Lemma sponsorship_outcomes_witness :
  isLoading (store (getSponsorshipStatus healthy_canister 5 "Base Sepolia" connected))
  = false
  /\ collections (store (getSponsorshipStatus healthy_canister 5 "Base Sepolia" connected))
     = collections connected
  /\ returned (getSponsorshipStatus healthy_canister 5 "Base Sepolia" connected) = None
  /\ error (store (getSponsorshipStatus healthy_canister 5 "Base Sepolia" connected))
     = Some "Quote not found"
  /\ sponsorshipStatus (store (getSponsorshipStatus healthy_canister 5 "Base Sepolia" connected))
     = sponsorshipStatus connected.
Proof.
  apply (sponsorship_outcomes healthy_canister 5 "Base Sepolia" connected).
  vm_compute. discriminate.
Defined.

End StoreInvariants.

(** * The two bindings, type by type *)

Section BindingValues.
Import IDL.

Lemma has_type_Record (fields : list (string * Ty)) (fs : list (string * Val)) :
  has_type (Record fields) (VRecord fs)
  = (length fs =? length fields)%nat
    && forallb (fun f => match assoc (fst f) fs with
                         | Some fv => has_type (snd f) fv
                         | None => false
                         end) fields.
Proof.
  cbn [has_type]. f_equal.
  induction fields as [|[k ft] rest IH]; [reflexivity|].
  cbn [forallb fst snd]. now rewrite IH.
Qed.

Lemma has_type_Record_inv (fields : list (string * Ty)) (v : Val) :
  has_type (Record fields) v = true ->
  exists fs, v = VRecord fs /\ length fs = length fields
    /\ forall k ft, In (k, ft) fields ->
         exists fv, assoc k fs = Some fv /\ has_type ft fv = true.
Proof.
  destruct v as [| | | | | | | |fs|]; try (cbn; discriminate).
  rewrite has_type_Record. intros H. apply andb_true_iff in H as [Hlen Hall].
  exists fs. split; [reflexivity|]. split; [now apply Nat.eqb_eq|].
  intros k ft Hin. rewrite forallb_forall in Hall. specialize (Hall (k, ft) Hin).
  cbn [fst snd] in Hall. destruct (assoc k fs) as [fv|]; [eauto|discriminate].
Qed.

(** Two records with the same keys: the values of one are values of the
    other when this holds key by key. *)
Lemma has_type_Record_incl (fa fb : list (string * Ty)) (v : Val) :
  length fa = length fb ->
  (forall k tb, In (k, tb) fb ->
     exists ta, In (k, ta) fa
       /\ forall x, has_type ta x = true -> has_type tb x = true) ->
  has_type (Record fa) v = true -> has_type (Record fb) v = true.
Proof.
  intros Hlen Hkeys H. apply has_type_Record_inv in H as (fs & -> & Hfs & Hall).
  rewrite has_type_Record. apply andb_true_iff. split.
  - apply Nat.eqb_eq. congruence.
  - apply forallb_forall. intros [k tb] Hin. cbn [fst snd].
    destruct (Hkeys k tb Hin) as (ta & Hina & Hsub).
    destruct (Hall k ta Hina) as (fv & -> & Hv). now apply Hsub.
Qed.

(** X11: a Quote of the canister's interface is a Quote of the interface the
    client store declares, and not the other way round: the store's type also
    admits the status Failed, which the canister never sends. So decoding the
    canister's quotes with the store's type loses nothing. *)
Theorem service_quote_is_store_quote :
  (forall v, has_type ServiceDid.Quote v = true -> has_type CanisterStore.Quote v = true)
  /\ exists v, has_type CanisterStore.Quote v = true
               /\ has_type ServiceDid.Quote v = false.
Proof.
  split.
  - intros v. apply has_type_Record_incl; [reflexivity|].
    intros k tb Hin. cbn [In] in Hin.
    repeat (destruct Hin as [Hin|Hin];
            [injection Hin as <- <-;
             first [ exists ServiceDid.QuoteStatus; split;
                     [cbn [In]; tauto|]
                   | eexists; split; [cbn [In]; tauto|intros x Hx; exact Hx] ]|]);
      try contradiction.
    intros x Hx.
    change ServiceDid.QuoteStatus
      with (Variant (map (fun k => (k, Null)) ["Active"; "Expired"; "Settled"])) in Hx.
    change CanisterStore.QuoteStatus
      with (Variant (map (fun k => (k, Null)) ["Active"; "Settled"; "Expired"; "Failed"])).
    apply has_type_enum in Hx as (tag & Hin & ->). apply has_type_enum.
    exists tag. split; [|reflexivity]. cbn [In] in *. tauto.
  - exists (VRecord
              [("id", VText "q"); ("user_principal", VPrincipal "aaaaa-aa");
               ("amount_in", VNat 0); ("amount_out", VNat 0);
               ("amount_requested", VNat 0); ("total_cost", VNat 0);
               ("gas_estimate", VNat 0); ("destination_address", VText "0x");
               ("source_chain", VText "ICP"); ("destination_chain", VText "Base");
               ("created_at", VNat 0); ("expires_at", VNat 0); ("base_fee", VNat 0);
               ("priority_fee", VNat 0); ("max_fee_per_gas", VNat 0);
               ("safety_margin", VNat 0); ("status", tag_only "Failed")]).
    split; vm_compute; reflexivity.
Qed.

(** X12: Settlement, UserTransaction, SponsorshipStatus and the reserve status
    have the same values in the two interfaces: the keys are written in
    another order, with the same types. *)
Theorem shared_types_have_same_values (v : Val) :
  (has_type ServiceDid.Settlement v = true <-> has_type CanisterStore.Settlement v = true)
  /\ (has_type ServiceDid.UserTransaction v = true
      <-> has_type CanisterStore.UserTransaction v = true)
  /\ (has_type ServiceDid.SponsorshipStatus v = true
      <-> has_type CanisterStore.SponsorshipStatus v = true)
  /\ (has_type ServiceDid.DetailedReserveStatus v = true
      <-> has_type CanisterStore.ReserveStatus v = true).
Proof.
  assert (forall x, has_type ServiceDid.SettlementStatus x = true
                    <-> has_type CanisterStore.SettlementStatus x = true) as Hs.
  { intros x.
    change ServiceDid.SettlementStatus
      with (Variant (map (fun k => (k, Null)) ["Failed"; "Executing"; "Completed"; "Pending"])).
    change CanisterStore.SettlementStatus
      with (Variant (map (fun k => (k, Null)) ["Pending"; "Executing"; "Completed"; "Failed"])).
    rewrite !has_type_enum. split; intros (tag & Hin & ->); exists tag;
      (split; [cbn [In] in *; tauto|reflexivity]). }
  assert (forall x, has_type ServiceDid.TransactionStatus x = true
                    <-> has_type CanisterStore.TransactionStatus x = true) as Ht.
  { intros x.
    change ServiceDid.TransactionStatus
      with (Variant (map (fun k => (k, Null))
                       ["Failed"; "Refunded"; "Processing"; "Completed"; "Pending"])).
    change CanisterStore.TransactionStatus
      with (Variant (map (fun k => (k, Null))
                       ["Pending"; "Processing"; "Completed"; "Failed"; "Refunded"])).
    rewrite !has_type_enum. split; intros (tag & Hin & ->); exists tag;
      (split; [cbn [In] in *; tauto|reflexivity]). }
  repeat split; apply has_type_Record_incl; try reflexivity;
    intros k tb Hin; cbn [In] in Hin;
    repeat (destruct Hin as [Hin|Hin];
            [injection Hin as <- <-;
             first [ eexists; split; [cbn [In]; tauto|intros x Hx; exact Hx]
                   | eexists; split; [cbn [In]; tauto|intros x Hx; apply Hs; exact Hx]
                   | eexists; split; [cbn [In]; tauto|intros x Hx; apply Ht; exact Hx] ]|]);
    contradiction.
Qed.


(** A settlement of the store's interface carries one of the four statuses. *)
Lemma settlement_status (v : Val) :
  has_type CanisterStore.Settlement v = true ->
  exists tag, In tag ["Pending"; "Executing"; "Completed"; "Failed"]
    /\ BridgeStore.field "status" v = Some (tag_only tag).
Proof.
  intros H. apply has_type_Record_inv in H as (fs & -> & _ & Hall).
  destruct (Hall "status" CanisterStore.SettlementStatus) as (fv & Hfv & Ht).
  { cbn [In]. tauto. }
  change CanisterStore.SettlementStatus
    with (Variant (map (fun k => (k, Null)) ["Pending"; "Executing"; "Completed"; "Failed"]))
    in Ht.
  apply has_type_enum in Ht as (tag & Hin & ->).
  exists tag. split; [exact Hin|exact Hfv].
Qed.

End BindingValues.

(** * The bridge store and its derived values *)

Section Bridge.
Import BridgeStore.

Lemma filter_three_way {A : Type} (p q r : A -> bool) (l : list A) :
  Forall (fun x => (p x = true /\ q x = false /\ r x = false)
                   \/ (p x = false /\ q x = true /\ r x = false)
                   \/ (p x = false /\ q x = false /\ r x = true)) l ->
  (length (List.filter p l) + length (List.filter q l) + length (List.filter r l)
   = length l)%nat.
Proof.
  induction 1 as [|x l Hx _ IH]; [reflexivity|]. cbn [List.filter].
  destruct Hx as [(-> & -> & ->)|[(-> & -> & ->)|(-> & -> & ->)]]; cbn [length]; lia.
Qed.

Lemma settlement_one_list (v : IDL.Val) :
  IDL.has_type CanisterStore.Settlement v = true ->
  let p := status_in "Pending" v || status_in "Executing" v in
  let q := status_in "Completed" v in
  let r := status_in "Failed" v in
  (p = true /\ q = false /\ r = false)
  \/ (p = false /\ q = true /\ r = false)
  \/ (p = false /\ q = false /\ r = true).
Proof.
  intros H. destruct (settlement_status v H) as (tag & Hin & Hf).
  unfold status_in. rewrite Hf. unfold IDL.tag_only.
  cbn [In] in Hin.
  destruct Hin as [<-|[<-|[<-|[<-|[]]]]]; vm_compute; tauto.
Qed.

(** X13: the derived lists of settlements split the settlements of the
    store: when these are values of the Settlement type, each is in exactly
    one of pendingSettlements (status Pending or Executing),
    completedSettlements and failedSettlements, so the three lengths add up
    to the number of settlements. *)
Theorem derived_settlements_partition (s : BridgeStore) :
  Forall (fun v => IDL.has_type CanisterStore.Settlement v = true) (settlements s) ->
  let d := useBridgeDerived s in
  (length (pendingSettlements d) + length (completedSettlements d)
   + length (failedSettlements d) = length (settlements s))%nat
  /\ forall v, In v (settlements s) ->
       (In v (pendingSettlements d) /\ ~ In v (completedSettlements d)
        /\ ~ In v (failedSettlements d))
       \/ (~ In v (pendingSettlements d) /\ In v (completedSettlements d)
           /\ ~ In v (failedSettlements d))
       \/ (~ In v (pendingSettlements d) /\ ~ In v (completedSettlements d)
           /\ In v (failedSettlements d)).
Proof.
  intros Hall. cbv zeta. unfold useBridgeDerived.
  cbn [pendingSettlements completedSettlements failedSettlements]. split.
  - apply filter_three_way. eapply List.Forall_impl; [|exact Hall].
    intros v Hv. exact (settlement_one_list v Hv).
  - intros v Hin. rewrite List.Forall_forall in Hall.
    pose proof (settlement_one_list v (Hall v Hin)) as H. cbv zeta in H.
    rewrite !filter_In.
    destruct H as [(H1 & H2 & H3)|[(H1 & H2 & H3)|(H1 & H2 & H3)]];
      rewrite H1, H2, H3; [left|right; left|right; right];
      repeat split; first [assumption | reflexivity | intros [_ E]; discriminate E].
Qed.

(** A store with a settlement that is being executed. *)
Lemma derived_settlements_partition_witness :
  (length (pendingSettlements (useBridgeDerived (addSettlement executing_settlement initial)))
   + length (completedSettlements (useBridgeDerived (addSettlement executing_settlement initial)))
   + length (failedSettlements (useBridgeDerived (addSettlement executing_settlement initial)))
   = length (settlements (addSettlement executing_settlement initial)))%nat
  /\ forall v, In v (settlements (addSettlement executing_settlement initial)) ->
       (In v (pendingSettlements (useBridgeDerived (addSettlement executing_settlement initial)))
        /\ ~ In v (completedSettlements (useBridgeDerived (addSettlement executing_settlement initial)))
        /\ ~ In v (failedSettlements (useBridgeDerived (addSettlement executing_settlement initial))))
       \/ (~ In v (pendingSettlements (useBridgeDerived (addSettlement executing_settlement initial)))
           /\ In v (completedSettlements (useBridgeDerived (addSettlement executing_settlement initial)))
           /\ ~ In v (failedSettlements (useBridgeDerived (addSettlement executing_settlement initial))))
       \/ (~ In v (pendingSettlements (useBridgeDerived (addSettlement executing_settlement initial)))
           /\ ~ In v (completedSettlements (useBridgeDerived (addSettlement executing_settlement initial)))
           /\ In v (failedSettlements (useBridgeDerived (addSettlement executing_settlement initial)))).
Proof.
  apply (derived_settlements_partition (addSettlement executing_settlement initial)).
  repeat constructor.
Defined.

Lemma truthy_string_iff (x : option string) :
  truthy_string x = true <-> exists text, x = Some text /\ text <> EmptyString.
Proof.
  destruct x as [text|]; cbn.
  - rewrite negb_true_iff. destruct (String.eqb_spec text EmptyString) as [->|Hne]; split.
    + discriminate.
    + intros (t & [= <-] & Hne). contradiction.
    + intros _. eauto.
    + reflexivity.
  - split; [discriminate|]. intros (t & E & _). discriminate E.
Qed.

Lemma truthy_bigint_iff (x : option Z) :
  truthy_bigint x = true <-> exists n, x = Some n /\ n <> 0%Z.
Proof.
  destruct x as [n|]; cbn.
  - rewrite negb_true_iff, Z.eqb_neq. split; [eauto|]. now intros (m & [= <-] & Hne).
  - split; [discriminate|]. intros (t & E & _). discriminate E.
Qed.

(** X14: the bridge data counts as complete exactly when the two tokens, the
    address and the chain are set to non-empty strings and the amount is set
    and not zero (an amount of 0n is set and still incomplete); a quote can
    be requested only with complete data, a reserve status that accepts
    quotes and no loading; resetBridgeData makes the data incomplete and
    keeps the quotes, the settlements and the reserve status. *)
Theorem bridge_data_complete (s : BridgeStore) :
  (isBridgeDataComplete (useBridgeDerived s) = true
   <-> exists source destination a address chain,
         sourceToken s = Some source /\ destinationToken s = Some destination
         /\ amount s = Some a /\ destinationAddress s = Some address
         /\ destinationChain s = Some chain
         /\ source <> EmptyString /\ destination <> EmptyString /\ a <> 0%Z
         /\ address <> EmptyString /\ chain <> EmptyString)
  /\ (canRequestQuote (useBridgeDerived s) = true ->
      isBridgeDataComplete (useBridgeDerived s) = true
      /\ can_accept_quotes s = true /\ isLoading s = false)
  /\ isBridgeDataComplete (useBridgeDerived (resetBridgeData s)) = false
  /\ quotes (resetBridgeData s) = quotes s
  /\ settlements (resetBridgeData s) = settlements s
  /\ reserveStatus (resetBridgeData s) = reserveStatus s.
Proof.
  split; [|split; [|repeat split]].
  - unfold useBridgeDerived. cbn [isBridgeDataComplete].
    rewrite !andb_true_iff, !truthy_string_iff, truthy_bigint_iff. split.
    + intros [[[[(a & Ha & Ha') (b & Hb & Hb')] (c & Hc & Hc')] (d & Hd & Hd')]
                (e & He & He')].
      exists a, b, c, d, e. repeat split; assumption.
    + intros (a & b & c & d & e & Ha & Hb & Hc & Hd & He & Ha' & Hb' & Hc' & Hd' & He').
      repeat split; eauto.
  - unfold useBridgeDerived. cbn [canRequestQuote isBridgeDataComplete].
    rewrite !andb_true_iff, negb_true_iff. tauto.
Qed.

End Bridge.

(** * The bridge service over the two stores *)

Section Service.
Import BridgeServices.


Lemma sublist_snoc_both (l1 l2 : list IDL.Val) (v : IDL.Val) :
  sublist l1 l2 -> sublist (l1 ++ [v])%list (l2 ++ [v])%list.
Proof. intros H. apply sublist_app; [exact H|reflexivity]. Qed.

Lemma sublist_snoc_r (l1 l2 : list IDL.Val) (v : IDL.Val) :
  sublist l1 l2 -> sublist l1 (l2 ++ [v])%list.
Proof. intros H. now apply sublist_inserts_r. Qed.

Lemma extends_sublist (l1 l2 l3 : list IDL.Val) :
  sublist l1 l2 -> StoreRuns.extends l2 l3 -> sublist l1 l3.
Proof. intros H [added ->]. now apply sublist_inserts_r. Qed.

Lemma call_settlements (x : Call) (w : Stores) :
  sublist (BridgeStore.settlements (bridgeStore w))
    (CanisterStore.settlements (canisterStore w)) ->
  sublist (BridgeStore.settlements (bridgeStore (call x w)))
    (CanisterStore.settlements (canisterStore (call x w)))
  /\ BridgeStore.quotes (bridgeStore (call x w)) = BridgeStore.quotes (bridgeStore w).
Proof.
  intros H. destruct x as [a|c amount address chain failed]; cbn [call].
  - cbn [bridgeStore canisterStore]. split; [|reflexivity].
    eapply extends_sublist; [exact H|].
    exact (proj2 (perform_extends a (canisterStore w))).
  - unfold bridgeAssets, CanisterStore.bridgeAssets.
    destruct (CanisterStore.actor (canisterStore w)) as [a|]; [|cbn; auto].
    destruct (CanisterStore.bridge_assets c amount address chain) as [[v|msg]|e];
      cbn; auto using sublist_snoc_both.
Qed.

(** X16: the two caches of settlements stay in step. In every interleaving of
    service calls with direct actions of the client store, from the two
    initial stores, the bridge store's settlements are a sublist of the
    client store's (the service appends a settlement to both, a direct
    bridgeAssets or settleQuote only to the client store's), and the service
    never adds a quote to the bridge store. *)
Theorem bridge_settlements_in_step (l : list Call) :
  sublist (BridgeStore.settlements (bridgeStore (calls l initial)))
    (CanisterStore.settlements (canisterStore (calls l initial)))
  /\ BridgeStore.quotes (bridgeStore (calls l initial)) = [].
Proof.
  unfold calls.
  assert (forall w,
            sublist (BridgeStore.settlements (bridgeStore w))
              (CanisterStore.settlements (canisterStore w))
            /\ BridgeStore.quotes (bridgeStore w) = [] ->
            let w' := fold_left (fun w x => call x w) l w in
            sublist (BridgeStore.settlements (bridgeStore w'))
              (CanisterStore.settlements (canisterStore w'))
            /\ BridgeStore.quotes (bridgeStore w') = []) as H.
  { induction l as [|x l IH]; intros w Hw; cbn [fold_left]; [exact Hw|].
    apply IH. destruct Hw as [H1 H2]. destruct (call_settlements x w H1) as [H3 H4].
    split; [exact H3|congruence]. }
  apply H. cbn. split; [constructor|reflexivity].
Qed.

End Service.

(** * The auth store *)

Section AuthStore.
Import Auth.

Lemma ensureAuthClient_spec (w : World) :
  coherent w ->
  let '(client, w1) := ensureAuthClient w in
  moduleAuthClient w1 = Some client /\ state w1 = state w /\ coherent w1
  /\ created w <= created w1.
Proof.
  intros Hw. unfold ensureAuthClient.
  destruct (moduleAuthClient w) as [client|] eqn:E.
  - split; [exact E|]. split; [reflexivity|]. split; [exact Hw|]. lia.
  - destruct Hw as (H1 & H2 & H3 & H4). unfold coherent. cbn.
    split; [reflexivity|]. split; [reflexivity|]. split; [|lia].
    split; [exact H1|]. split; [exact H2|]. split.
    + intros Hc. specialize (H3 Hc). congruence.
    + intros serial [= <-]. lia.
Qed.

Lemma perform_coherent (a : Action) (w : World) :
  coherent w -> coherent (perform a w).
Proof.
  intros Hw. pose proof (ensureAuthClient_spec w Hw) as He.
  destruct a as [session|outcome| |node_env i|e]; cbn [perform].
  - unfold sync. destruct (ensureAuthClient w) as [client w1].
    destruct He as (Hm & _ & (_ & _ & _ & H4) & _).
    unfold coherent. cbn.
    destruct (authenticated session); repeat split;
      first [discriminate | congruence | exact H4 | intros; congruence].
  - unfold signIn. destruct (ensureAuthClient w) as [client w1].
    destruct He as (Hm & _ & Hc & _).
    destruct outcome as [i|e]; cbn [snd]; [|exact Hc].
    destruct Hc as (_ & _ & _ & H4). unfold coherent. cbn.
    repeat split; first [discriminate | congruence | exact H4 | intros; congruence].
  - unfold signOut. destruct (ensureAuthClient w) as [client w1].
    unfold coherent. cbn.
    repeat split; first [discriminate | congruence | intros; congruence].
  - unfold setForTesting. destruct (String.eqb node_env "test"); cbn [snd]; [|exact Hw].
    destruct Hw as (_ & _ & H3 & H4). unfold coherent. cbn.
    repeat split; first [discriminate | congruence | exact H3 | exact H4 | intros; congruence].
  - exact Hw.
Qed.

Lemma run_coherent (l : list Action) (w : World) :
  coherent w -> coherent (run l w).
Proof.
  unfold run. revert w. induction l as [|a l IH]; intros w Hw; cbn [fold_left];
    [exact Hw|]. apply IH, perform_coherent, Hw.
Qed.

Lemma initial_coherent : coherent initial.
Proof.
  unfold coherent. cbn.
  repeat split; first [discriminate | congruence | intros; congruence].
Qed.

(** X17: the auth store stays coherent under sync, signIn, signOut,
    setForTesting and setError, however they follow each other and whatever
    the auth client answers: it says it is authenticated exactly when it
    holds an identity, it has a principal only with an identity, and a client
    it holds is the client of the module. *)
Theorem auth_store_coherent (l : list Action) :
  let w := run l initial in
  (isAuthenticated (state w) = true <-> identity (state w) <> None)
  /\ (identity (state w) = None -> principal (state w) = None)
  /\ (authClient (state w) <> None -> authClient (state w) = moduleAuthClient w).
Proof.
  destruct (run_coherent l initial initial_coherent) as (H1 & H2 & H3 & _).
  cbv zeta. auto.
Qed.

(** X18: signing out drops the client: after signOut the store is signed out
    and holds no client, and the client that the next sync or signIn works
    with is a new one, different from the client of the module and of the
    store before (signOut itself creates a client to log out when there was
    none). *)
Theorem sign_out_drops_client (l : list Action) (client : AuthClient) :
  let w := run l initial in
  let w' := signOut w in
  (moduleAuthClient w = Some client \/ authClient (state w) = Some client) ->
  identity (state w') = None /\ isAuthenticated (state w') = false
  /\ principal (state w') = None /\ authClient (state w') = None
  /\ moduleAuthClient w' = None
  /\ fst (ensureAuthClient w') <> client.
Proof.
  cbv zeta. intros Hclient.
  pose proof (run_coherent l initial initial_coherent) as Hw.
  pose proof (ensureAuthClient_spec (run l initial) Hw) as He.
  assert (moduleAuthClient (run l initial) = Some client) as Hm.
  { destruct Hclient as [H|H]; [exact H|].
    destruct Hw as (_ & _ & H3 & _). rewrite <- H3; [exact H|congruence]. }
  destruct Hw as (_ & _ & _ & H4). destruct client as [serial].
  specialize (H4 serial Hm).
  unfold signOut. destruct (ensureAuthClient (run l initial)) as [c1 w1].
  destruct He as (_ & _ & _ & Hle). cbn.
  repeat split. intros [= E]. lia.
Qed.

(** After a sign-in and a sign-out, the next client is a new one. *)
Lemma sign_out_drops_client_witness :
  identity (state (signOut (run sign_in_once initial))) = None
  /\ isAuthenticated (state (signOut (run sign_in_once initial))) = false
  /\ principal (state (signOut (run sign_in_once initial))) = None
  /\ authClient (state (signOut (run sign_in_once initial))) = None
  /\ moduleAuthClient (signOut (run sign_in_once initial)) = None
  /\ fst (ensureAuthClient (signOut (run sign_in_once initial))) <> NewAuthClient 0.
Proof.
  apply (sign_out_drops_client sign_in_once (NewAuthClient 0)).
  left. reflexivity.
Defined.

(** X19: the client store connects as whoever the auth store holds: when
    initializeCanister connects, its agent carries the identity of the auth
    store if this is authenticated and the anonymous identity otherwise, in
    particular after a signOut or when there is no auth store. *)
Theorem connects_with_auth_identity (l : list Action) (network : string)
    (rootKey : CanisterStore.Outcome unit)
    (c : CanisterStore.GaslessBridgeCanister) (s : CanisterStore.Store) :
  let w := run l initial in
  let s' := CanisterStore.store
              (CanisterStore.initializeCanister (init_env (Some w) network rootKey c) s) in
  CanisterStore.isConnected s' = true ->
  (forall i, identity (state w) = Some i ->
     isAuthenticated (state w) = true
     /\ CanisterStore.agent s'
        = Some (CanisterStore.NewHttpAgent (CanisterStore.HOST network) i))
  /\ (isAuthenticated (state w) = false ->
      CanisterStore.agent s'
      = Some (CanisterStore.NewHttpAgent (CanisterStore.HOST network)
                CanisterStore.AnonymousIdentity)).
Proof.
  cbv zeta. intros Hconn.
  destruct (run_coherent l initial initial_coherent) as (H1 & _).
  pose proof (initializeCanister_store
                (init_env (Some (run l initial)) network rootKey c) s) as H.
  cbv zeta in H.
  destruct (StoreRuns.handshake _) as [status|e].
  - destruct H as [stats H]. rewrite H in *. cbn [CanisterStore.agent].
    unfold init_env. cbn [CanisterStore.dfx_network CanisterStore.authIdentity].
    split.
    + intros i Hi. rewrite Hi. split; [apply H1; congruence|reflexivity].
    + intros Hauth. destruct (identity (state (run l initial))) as [i|] eqn:Hi;
        [|reflexivity].
      assert (isAuthenticated (state (run l initial)) = true) as Ht
        by (apply H1; congruence).
      congruence.
  - rewrite H in Hconn. cbn in Hconn. discriminate.
Qed.

(** After a sign-in, the main network is reached with the identity signed in. *)
Lemma connects_with_auth_identity_witness :
  (forall i, identity (state (run sign_in_once initial)) = Some i ->
     isAuthenticated (state (run sign_in_once initial)) = true
     /\ CanisterStore.agent
          (CanisterStore.store
             (CanisterStore.initializeCanister
                (init_env (Some (run sign_in_once initial)) "ic"
                   (CanisterStore.Resolved tt) CanisterStore.healthy_canister)
                CanisterStore.initial))
        = Some (CanisterStore.NewHttpAgent (CanisterStore.HOST "ic") i))
  /\ (isAuthenticated (state (run sign_in_once initial)) = false ->
      CanisterStore.agent
        (CanisterStore.store
           (CanisterStore.initializeCanister
              (init_env (Some (run sign_in_once initial)) "ic"
                 (CanisterStore.Resolved tt) CanisterStore.healthy_canister)
              CanisterStore.initial))
      = Some (CanisterStore.NewHttpAgent (CanisterStore.HOST "ic")
                CanisterStore.AnonymousIdentity)).
Proof.
  apply (connects_with_auth_identity sign_in_once "ic" (CanisterStore.Resolved tt)
           CanisterStore.healthy_canister CanisterStore.initial).
  vm_compute. reflexivity.
Defined.

End AuthStore.
